(** * The Kafka channel dispatcher of eventing-kafka

    A shallow embedding of [pkg/channel/distributed/dispatcher] (the third
    document of [src/pkg/channel/distributed/controller/constants/constants.go]):
    [DispatcherImpl] with its registry of [SubscriberWrapper]s and the
    operations [UpdateSubscriptions], [Shutdown], [closeConsumerGroup] and
    [ConfigChanged].
    [VerifyConfiguration] of the controller's package [config] (the second
    document of that file) is embedded as well.

    The Go code is stateful and talks to the outside world (Kafka consumer
    groups, channels, goroutines).  The embedding threads a [World] through a
    small result monad: the world holds the chronological trace of the
    external calls that were made, the set of stop channels that were closed
    and the allocation counter for channels.  The behaviour of the outside
    world (does creating a consumer group work, does closing one work, in
    which order does [range] visit a map) is taken from oracles that see the
    whole history, so that every behaviour of the environment is covered. *)

From stdpp Require Import base numbers strings list gmap sets fin_maps.

(** ** Data model *)

(** [error] values are represented by their message. *)
Definition Error := string.

(** A [sarama.ConsumerGroup] interface value is an object; it is identified
    by a number, and [None] is the nil interface. *)
Definition Handle := nat.

(** A [chan struct{}] is identified by its allocation number. *)
Definition Chan := nat.

(** Address held by a pointer-typed field; [None] is nil. *)
Definition Ptr := positive.

(** [eventingduck.SubscriberSpec].  [types.UID] is a string; the three last
    fields are pointers in Go ([*apis.URL], [*apis.URL], [*DeliverySpec]),
    and a spec used as a map key is compared field by field, pointers by
    address. *)
Record SubscriberSpec : Type := mkSubscriberSpec {
  UID : string;
  Generation : Z;
  SubscriberURI : option Ptr;
  ReplyURI : option Ptr;
  Delivery : option Ptr
}.

#[global] Instance SubscriberSpec_eq_dec : EqDecision SubscriberSpec.
Proof. solve_decision. Defined.

#[global] Instance SubscriberSpec_countable : Countable SubscriberSpec.
Proof.
  refine (inj_countable'
    (λ s, (UID s, Generation s, SubscriberURI s, ReplyURI s, Delivery s))
    (λ t, let '(u, g, s, r, d) := t in mkSubscriberSpec u g s r d) _).
  by intros [].
Defined.

(** A group of settings of a [sarama.Config]: keys and values. *)
Definition Settings := list (string * string).

(** [sarama.Config], as far as the dispatcher looks into it: the client
    identifier, the SASL credentials, the [Producer] section (which
    [ConfigChanged] ignores) and every other setting. *)
Record sarama_Config : Type := mkSaramaConfig {
  ClientID : string;
  Net_SASL_User : string;
  Net_SASL_Password : string;
  Producer : Settings;
  Rest : Settings
}.

#[global] Instance sarama_Config_eq_dec : EqDecision sarama_Config.
Proof. solve_decision. Defined.

(** [v1.ConfigMap]: a name and its data. *)
Record ConfigMap : Type := mkConfigMap {
  Name : string;
  Data : list (string * string)
}.

(** [SubscriberWrapper]: the embedded spec, the group id, the consumer group
    and the stop channel. *)
Record SubscriberWrapper : Type := mkSubscriberWrapper {
  Spec : SubscriberSpec;
  GroupId : string;
  ConsumerGroup : option Handle;
  StopChan : Chan
}.

#[global] Instance SubscriberWrapper_eq_dec : EqDecision SubscriberWrapper.
Proof. solve_decision. Defined.

(** [DispatcherConfig] without [Logger] and [StatsReporter], which only
    observe. *)
Record DispatcherConfig : Type := mkDispatcherConfig {
  ClientId : string;
  Brokers : list string;
  Topic : string;
  Username : string;
  Password : string;
  ChannelKey : string;
  SaramaConfig : option sarama_Config;
  SubscriberSpecs : list SubscriberSpec
}.

(** [DispatcherImpl]: the embedded configuration, the registry and the
    mutex ([true] when held).  [messageDispatcher] is never used in this
    file of the source. *)
Record DispatcherImpl : Type := mkDispatcherImpl {
  dispatcherConfig : DispatcherConfig;
  subscribers : gmap string SubscriberWrapper;
  consumerUpdateLock : bool
}.

(** What [consumer.CreateConsumerGroup] returns: the consumer group and the
    error (the metadata in the middle is dropped by the caller). *)
Record CreateResult : Type := mkCreateResult {
  cgHandle : option Handle;
  cgErr : option Error
}.

(** ** The world outside the dispatcher *)

(** The calls that leave the dispatcher, and the writes to the registry
    together with the state of [consumerUpdateLock] of the dispatcher that is
    written to. *)
Inductive Event : Type :=
| EvCreateConsumerGroup (brokers : list string) (config : sarama_Config)
                        (groupId : string) (result : CreateResult)
| EvStartConsuming (subscriber : SubscriberWrapper) (topic : string)
| EvCloseStopChan (subscriber : SubscriberWrapper)
| EvCloseConsumerGroup (subscriber : SubscriberWrapper) (err : option Error)
| EvRegistryInsert (uid : string) (lockHeld : bool)
| EvRegistryDelete (uid : string) (lockHeld : bool).

#[global] Instance CreateResult_eq_dec : EqDecision CreateResult.
Proof. solve_decision. Defined.

#[global] Instance Event_eq_dec : EqDecision Event.
Proof. solve_decision. Defined.

Record World : Type := mkWorld {
  trace : list Event;          (* oldest event first *)
  closedChans : gset Chan;     (* channels on which close() was called *)
  nextChan : Chan;             (* the next channel make() returns *)
  rangeCount : nat             (* number of map ranges started so far *)
}.

(** How a call ends: it returns, it panics, the logger's [Fatal] ends the
    process, or it waits for a mutex that nobody in this thread releases. *)
Inductive Result (A : Type) : Type :=
| Ok (a : A) (w : World)
| Panic (msg : string) (w : World)
| Fatal (msg : string) (count : nat) (w : World)
| Blocked (w : World).
Arguments Ok {A} a w.
Arguments Panic {A} msg w.
Arguments Fatal {A} msg count w.
Arguments Blocked {A} w.

(** Readers of a result, for statements about the outcome of a run. *)
Definition returns {A : Type} (r : Result A) : bool :=
  match r with
  | Ok _ _ => true
  | _ => false
  end.

Definition resultValue {A : Type} (r : Result A) (default : A) : A :=
  match r with
  | Ok a _ => a
  | _ => default
  end.

Definition resultWorld {A : Type} (r : Result A) : World :=
  match r with
  | Ok _ w | Panic _ w | Fatal _ _ w | Blocked w => w
  end.

Definition M (A : Type) : Type := World → Result A.

#[global] Instance M_ret : MRet M := λ A a w, Ok a w.

#[global] Instance M_bind : MBind M := λ A B f m w,
  match m w with
  | Ok a w' => f a w'
  | Panic msg w' => Panic msg w'
  | Fatal msg n w' => Fatal msg n w'
  | Blocked w' => Blocked w'
  end.

Definition emit (e : Event) : M unit := λ w,
  Ok tt (mkWorld (trace w ++ [e]) (closedChans w) (nextChan w) (rangeCount w)).

(** [make(chan struct{})] *)
Definition makeChan : M Chan := λ w,
  Ok (nextChan w)
     (mkWorld (trace w) (closedChans w) (S (nextChan w)) (rangeCount w)).

(** [close(ch)]: closing a closed channel is a run-time panic in Go. *)
Definition closeChan (ch : Chan) : M unit := λ w,
  if decide (ch ∈ closedChans w)
  then Panic "close of closed channel" w
  else Ok tt (mkWorld (trace w) ({[ch]} ∪ closedChans w) (nextChan w)
                      (rangeCount w)).

(** [Logger.Fatal]: zap writes the record and exits the process. *)
Definition logFatal {A : Type} (msg : string) (count : nat) : M A := λ w,
  Fatal msg count w.

(** ** Record updates *)

Definition setSaramaConfig (c : DispatcherConfig) (s : option sarama_Config)
  : DispatcherConfig :=
  mkDispatcherConfig (ClientId c) (Brokers c) (Topic c) (Username c)
    (Password c) (ChannelKey c) s (SubscriberSpecs c).

Definition setSubscriberSpecs (c : DispatcherConfig) (l : list SubscriberSpec)
  : DispatcherConfig :=
  mkDispatcherConfig (ClientId c) (Brokers c) (Topic c) (Username c)
    (Password c) (ChannelKey c) (SaramaConfig c) l.

Definition withConfig (d : DispatcherImpl) (c : DispatcherConfig)
  : DispatcherImpl :=
  mkDispatcherImpl c (subscribers d) (consumerUpdateLock d).

Definition withSubscribers (d : DispatcherImpl)
  (m : gmap string SubscriberWrapper) : DispatcherImpl :=
  mkDispatcherImpl (dispatcherConfig d) m (consumerUpdateLock d).

Definition withLock (d : DispatcherImpl) (b : bool) : DispatcherImpl :=
  mkDispatcherImpl (dispatcherConfig d) (subscribers d) b.

(** [len] of the map [UpdateSubscriptions] returns; [None] is the nil map,
    whose length is 0 like that of the empty map. *)
Definition len (failed : option (gmap SubscriberSpec Error)) : nat :=
  match failed with
  | None => 0
  | Some m => size m
  end.

(** ** Iteration order of [range] over a map

    Go leaves the order unspecified.  The order is taken from a choice
    function: at each step it picks one of the keys that are left. *)
Fixpoint rangeOrder (fuel : nat) (choose : list string → nat)
  (keys : list string) : list string :=
  match fuel with
  | 0 => []
  | S fuel' =>
      let i := choose keys `mod` length keys in
      match keys !! i with
      | Some k => k :: rangeOrder fuel' choose (delete i keys)
      | None => []
      end
  end.

(** ** The controller configuration and its verification

    Package [config] of the controller (the second document of the source
    file): [ControllerConfigurationError] with its [Error] method and
    [VerifyConfiguration].  The function reads and writes its argument
    through a pointer; the embedding takes the value the pointer refers to
    ([None] is the nil pointer) and returns that value as the call leaves it
    together with the error.  [resource.Quantity] belongs to a library: the
    code compares it with [==] against its zero value and does nothing else
    with it, so it is a type with decidable equality and a distinguished
    value.  [strings.ToLower] is a function on strings given from outside. *)

Module constants.

Definition KafkaAdminTypeValueKafka : string := "kafka".
Definition KafkaAdminTypeValueAzure : string := "azure".
Definition KafkaAdminTypeValueCustom : string := "custom".

End constants.

Module config.

(** [type ControllerConfigurationError string] *)
Definition ControllerConfigurationError := string.

Definition Error (err : ControllerConfigurationError) : string :=
  "controller: invalid configuration (" +:+ err +:+ ")".

Section Config.

Context {Quantity : Type} `{!EqDecision Quantity}.
Variable zeroQuantity : Quantity.
Variable ToLower : string → string.

(** The fields of [config.EventingKafkaConfig] that [VerifyConfiguration]
    reads, laid out as the struct literal of [NewConfig] in
    [controller/testing/data.go] has them: [Dispatcher] and [Receiver]
    embed an [EKKubernetesConfig].  The replica counts and the topic
    defaults are Go integers of several widths, which the function only
    compares with 1. *)
Record EKKubernetesConfig : Type := mkEKKubernetesConfig {
  Replicas : Z;
  CpuLimit : Quantity;
  CpuRequest : Quantity;
  MemoryLimit : Quantity;
  MemoryRequest : Quantity
}.

Record EKKafkaTopicConfig : Type := mkEKKafkaTopicConfig {
  DefaultNumPartitions : Z;
  DefaultReplicationFactor : Z;
  DefaultRetentionMillis : Z
}.

Record EKKafkaConfig : Type := mkEKKafkaConfig {
  Topic : EKKafkaTopicConfig;
  AdminType : string
}.

Record EventingKafkaConfig : Type := mkEventingKafkaConfig {
  Dispatcher : EKKubernetesConfig;
  Receiver : EKKubernetesConfig;
  Kafka : EKKafkaConfig
}.

(** [configuration.Kafka.AdminType = t] *)
Definition setAdminType (configuration : EventingKafkaConfig) (t : string)
  : EventingKafkaConfig :=
  mkEventingKafkaConfig (Dispatcher configuration) (Receiver configuration)
    (mkEKKafkaConfig (Topic (Kafka configuration)) t).

(** What a call leaves behind: the configuration behind the pointer and the
    returned error ([None] is nil), or the panic of a nil dereference. *)
Inductive Outcome : Type :=
  | Returned (configuration : EventingKafkaConfig)
      (err : option ControllerConfigurationError)
  | NilDereference.

Definition VerifyConfiguration (configuration : option EventingKafkaConfig)
  : Outcome :=
  match configuration with
  | None => NilDereference
  | Some configuration =>
      let lowercaseKafkaAdminType := ToLower (AdminType (Kafka configuration)) in
      if decide (lowercaseKafkaAdminType = constants.KafkaAdminTypeValueKafka
                 ∨ lowercaseKafkaAdminType = constants.KafkaAdminTypeValueAzure
                 ∨ lowercaseKafkaAdminType = constants.KafkaAdminTypeValueCustom)
      then
        let configuration := setAdminType configuration lowercaseKafkaAdminType in
        Returned configuration
          (if (DefaultNumPartitions (Topic (Kafka configuration)) <? 1)%Z
           then Some "Kafka.Topic.DefaultNumPartitions must be > 0"
           else if (DefaultReplicationFactor (Topic (Kafka configuration)) <? 1)%Z
           then Some "Kafka.Topic.DefaultReplicationFactor must be > 0"
           else if (DefaultRetentionMillis (Topic (Kafka configuration)) <? 1)%Z
           then Some "Kafka.Topic.DefaultRetentionMillis must be > 0"
           else if decide (CpuLimit (Dispatcher configuration) = zeroQuantity)
           then Some "Dispatcher.CpuLimit must be nonzero"
           else if decide (CpuRequest (Dispatcher configuration) = zeroQuantity)
           then Some "Dispatcher.CpuRequest must be nonzero"
           else if decide (MemoryLimit (Dispatcher configuration) = zeroQuantity)
           then Some "Dispatcher.MemoryLimit must be nonzero"
           else if decide (MemoryRequest (Dispatcher configuration) = zeroQuantity)
           then Some "Dispatcher.MemoryRequest must be nonzero"
           else if (Replicas (Dispatcher configuration) <? 1)%Z
           then Some "Dispatcher.Replicas must be > 0"
           else if decide (CpuLimit (Receiver configuration) = zeroQuantity)
           then Some "Receiver.CpuLimit must be nonzero"
           else if decide (CpuRequest (Receiver configuration) = zeroQuantity)
           then Some "Receiver.CpuRequest must be nonzero"
           else if decide (MemoryLimit (Receiver configuration) = zeroQuantity)
           then Some "Receiver.MemoryLimit must be nonzero"
           else if decide (MemoryRequest (Receiver configuration) = zeroQuantity)
           then Some "Receiver.MemoryRequest must be nonzero"
           else if (Replicas (Receiver configuration) <? 1)%Z
           then Some "Receiver.Replicas must be > 0"
           else None)
      else
        Returned configuration
          (Some ("Invalid / Unknown Kafka Admin Type: "
                 +:+ AdminType (Kafka configuration)))
  end.

(** The admin types the switch accepts. *)
Definition knownAdminType (t : string) : Prop :=
  t = constants.KafkaAdminTypeValueKafka
  ∨ t = constants.KafkaAdminTypeValueAzure
  ∨ t = constants.KafkaAdminTypeValueCustom.

(** The mandatory settings are all present. *)
Definition resourcesSet (k : EKKubernetesConfig) : Prop :=
  CpuLimit k ≠ zeroQuantity ∧ CpuRequest k ≠ zeroQuantity
  ∧ MemoryLimit k ≠ zeroQuantity ∧ MemoryRequest k ≠ zeroQuantity
  ∧ (1 ≤ Replicas k)%Z.

Definition mandatorySet (configuration : EventingKafkaConfig) : Prop :=
  (1 ≤ DefaultNumPartitions (Topic (Kafka configuration)))%Z
  ∧ (1 ≤ DefaultReplicationFactor (Topic (Kafka configuration)))%Z
  ∧ (1 ≤ DefaultRetentionMillis (Topic (Kafka configuration)))%Z
  ∧ resourcesSet (Dispatcher configuration)
  ∧ resourcesSet (Receiver configuration).

End Config.

Arguments EKKubernetesConfig : clear implicits.
Arguments EventingKafkaConfig : clear implicits.
Arguments Outcome : clear implicits.
Arguments mkEKKubernetesConfig {_} _ _ _ _ _.
Arguments mkEventingKafkaConfig {_} _ _ _.
Arguments Returned {_} _ _.
Arguments NilDereference {_}.

End config.

(** ** Concrete data for the examples

    Three subscriber specs, a configuration and simple environments: a
    factory that numbers its handles by the length of the history, one that
    refuses the group of subscriber B, closes that work and closes that
    fail, and a range that always starts with the first key left. *)

Definition specA : SubscriberSpec := mkSubscriberSpec "A" 1 None None None.
Definition specB : SubscriberSpec := mkSubscriberSpec "B" 1 None None None.
Definition specX : SubscriberSpec := mkSubscriberSpec "X" 1 None None None.

Definition exampleSarama : sarama_Config :=
  mkSaramaConfig "client" "user" "secret" [("Producer.Retry.Max", "3")]
    [("Consumer.Fetch.Min", "1")].

Definition exampleConfig : DispatcherConfig :=
  mkDispatcherConfig "client" ["broker:9092"] "topic" "user" "secret"
    "ns/channel" (Some exampleSarama) [].

Definition emptyWorld : World := mkWorld [] ∅ 0 0.

(** The same configuration without Sarama configuration. *)
Definition exampleConfigNil : DispatcherConfig :=
  mkDispatcherConfig "client" ["broker:9092"] "topic" "user" "secret"
    "ns/channel" None [].

Definition createOk (tr : list Event) (brokers : list string)
  (config : sarama_Config) (groupId : string) : CreateResult :=
  mkCreateResult (Some (length tr)) None.

Definition createFailB (tr : list Event) (brokers : list string)
  (config : sarama_Config) (groupId : string) : CreateResult :=
  if decide (groupId = "kafka.B")
  then mkCreateResult None (Some "E")
  else mkCreateResult (Some (length tr)) None.

Definition closeOk (tr : list Event) (h : Handle) : option Error := None.

Definition closeFails (tr : list Event) (h : Handle) : option Error :=
  Some "close failed".

(** A close that fails for the consumer group with handle 3 and works for
    every other one. *)
Definition closeFailsFor3 (tr : list Event) (h : Handle) : option Error :=
  if decide (h = 3) then Some "close failed" else None.

Definition pickFirst (n : nat) (keys : list string) : nat := 0.


Definition mergeConsumerChange (base : option sarama_Config) (cm : ConfigMap)
  : sarama_Config + Error :=
  inl (mkSaramaConfig "other" "" "" [("Producer.Retry.Max", "3")]
         [("Consumer.Fetch.Min", "64")]).

Definition mergeProducerChange (base : option sarama_Config) (cm : ConfigMap)
  : sarama_Config + Error :=
  inl (mkSaramaConfig "other" "mallory" "guess" [("Producer.Retry.Max", "9")]
         [("Consumer.Fetch.Min", "1")]).

(** [strings.ToLower] on strings of ASCII characters, for the examples. *)
Definition asciiLower (a : Ascii.ascii) : Ascii.ascii :=
  let n := Ascii.nat_of_ascii a in
  if (65 <=? n) && (n <=? 90) then Ascii.ascii_of_nat (n + 32) else a.

Fixpoint asciiToLower (s : string) : string :=
  match s with
  | EmptyString => EmptyString
  | String a s' => String (asciiLower a) (asciiToLower s')
  end.

(** Quantities for the examples: the zero value is [None]. *)
Definition exampleKubernetes : config.EKKubernetesConfig (option string) :=
  config.mkEKKubernetesConfig 1 (Some "100m") (Some "50m") (Some "128Mi")
    (Some "64Mi").

(** Accepted up to the case of the admin type. *)
Definition exampleEventingKafkaConfig : config.EventingKafkaConfig (option string) :=
  config.mkEventingKafkaConfig exampleKubernetes exampleKubernetes
    (config.mkEKKafkaConfig (config.mkEKKafkaTopicConfig 4 1 99999) "Kafka").

(** A known admin type, but no partitions. *)
Definition exampleNoPartitions : config.EventingKafkaConfig (option string) :=
  config.mkEventingKafkaConfig exampleKubernetes exampleKubernetes
    (config.mkEKKafkaConfig (config.mkEKKafkaTopicConfig 0 1 99999) "AZURE").

(** The dispatcher after the subscribers A and B were registered on a new
    dispatcher by a factory that works, and the world then: the handles are
    numbered by the length of the history, the stop channels by their
    allocation. *)
Definition subA : SubscriberWrapper :=
  mkSubscriberWrapper specA "kafka.A" (Some 0) 0.
Definition subB : SubscriberWrapper :=
  mkSubscriberWrapper specB "kafka.B" (Some 3) 1.

Definition registeredAB : DispatcherImpl :=
  mkDispatcherImpl (setSubscriberSpecs exampleConfig [specA; specB])
    (<["A" := subA]> (<["B" := subB]> ∅)) false.

Definition worldAB : World :=
  mkWorld
    [EvCreateConsumerGroup ["broker:9092"] exampleSarama "kafka.A"
       (mkCreateResult (Some 0) None);
     EvStartConsuming subA "topic";
     EvRegistryInsert "A" true;
     EvCreateConsumerGroup ["broker:9092"] exampleSarama "kafka.B"
       (mkCreateResult (Some 3) None);
     EvStartConsuming subB "topic";
     EvRegistryInsert "B" true]
    ∅ 2 1.

(** The same dispatcher after B was to be removed and the close of its
    consumer group failed: B is still registered, its stop channel is
    closed. *)
Definition leftoverB : DispatcherImpl :=
  mkDispatcherImpl (setSubscriberSpecs exampleConfig [specA])
    (<["A" := subA]> (<["B" := subB]> ∅)) false.

Definition worldLeftoverB : World :=
  mkWorld
    (trace worldAB
     ++ [EvCloseStopChan subB; EvCloseConsumerGroup subB (Some "close failed")])
    {[1]} 2 2.

(** A new dispatcher after A was registered and the factory refused B. *)
Definition registeredA : DispatcherImpl :=
  mkDispatcherImpl (setSubscriberSpecs exampleConfig [specA])
    (<["A" := subA]> ∅) false.

Definition worldFailedB : World :=
  mkWorld
    [EvCreateConsumerGroup ["broker:9092"] exampleSarama "kafka.A"
       (mkCreateResult (Some 0) None);
     EvStartConsuming subA "topic";
     EvRegistryInsert "A" true;
     EvCreateConsumerGroup ["broker:9092"] exampleSarama "kafka.B"
       (mkCreateResult None (Some "E"))]
    ∅ 1 1.

Section Dispatcher.

(** [consumer.CreateConsumerGroup(brokers, config, groupId)]: the
    environment decides, knowing all that happened before. *)
Variable CreateConsumerGroup :
  list Event → list string → sarama_Config → string → CreateResult.

(** [consumerGroup.Close()] of sarama; [None] is a nil error. *)
Variable CloseGroup : list Event → Handle → option Error.

(** The choice function of the [n]-th map range of the run. *)
Variable pick : nat → list string → nat.

(** [kafkasarama.MergeSaramaSettings(config, configMap)]: the merged
    configuration or an error.  Its code is not in this file of the
    repository; it is a parameter. *)
Variable MergeSaramaSettings :
  option sarama_Config → ConfigMap → sarama_Config + Error.

(** Modelled from the spec: [kafkasarama.UpdateSaramaConfig], whose code is
    missing: "reapplies the previously held credentials and client
    identifier onto the merge result". *)
Definition UpdateSaramaConfig (config : sarama_Config)
  (clientId username password : string) : sarama_Config :=
  mkSaramaConfig clientId username password (Producer config) (Rest config).

(** Modelled from the spec: [kafkasarama.ConfigEqual] called with the
    [Producer] section to ignore, whose code is missing: "compare the
    merged configuration to the current snapshot, ignoring any settings
    that only affect delivery/production semantics". *)
Definition ConfigEqual (config1 config2 : sarama_Config) : bool :=
  bool_decide (ClientID config1 = ClientID config2)
  && bool_decide (Net_SASL_User config1 = Net_SASL_User config2)
  && bool_decide (Net_SASL_Password config1 = Net_SASL_Password config2)
  && bool_decide (Rest config1 = Rest config2).

(** The keys of a map in the order in which this [range] visits them. *)
Definition rangeKeys (m : gmap string SubscriberWrapper)
  : M (list string) := λ w,
  let keys := (map_to_list m).*1 in
  Ok (rangeOrder (length keys) (pick (rangeCount w)) keys)
     (mkWorld (trace w) (closedChans w) (nextChan w) (S (rangeCount w))).

(** [for _, subscriber := range d.subscribers { body }].  An entry that
    was deleted before the range reached it is not produced. *)
Fixpoint forRange (body : DispatcherImpl → SubscriberWrapper → M DispatcherImpl)
  (keys : list string) (d : DispatcherImpl) : M DispatcherImpl :=
  match keys with
  | [] => mret d
  | k :: keys' =>
      match subscribers d !! k with
      | None => forRange body keys' d
      | Some subscriber => d' ← body d subscriber; forRange body keys' d'
      end
  end.

(** ** The dispatcher *)

Definition NewSubscriberWrapper (subscriberSpec : SubscriberSpec)
  (groupId : string) (consumerGroup : option Handle) : M SubscriberWrapper :=
  ch ← makeChan;
  mret (mkSubscriberWrapper subscriberSpec groupId consumerGroup ch).

Definition NewDispatcher (config : DispatcherConfig) : DispatcherImpl :=
  mkDispatcherImpl config ∅ false.

(** [d.consumerUpdateLock.Lock()] *)
Definition Lock (d : DispatcherImpl) : M DispatcherImpl := λ w,
  if consumerUpdateLock d then Blocked w else Ok (withLock d true) w.

(** [d.consumerUpdateLock.Unlock()], deferred to the return. *)
Definition Unlock (d : DispatcherImpl) : M DispatcherImpl :=
  mret (withLock d false).

(** [delete(d.subscribers, uid)] *)
Definition deleteSubscriber (d : DispatcherImpl) (uid : string)
  : M DispatcherImpl :=
  _ ← emit (EvRegistryDelete uid (consumerUpdateLock d));
  mret (withSubscribers d (delete uid (subscribers d))).

(** [d.subscribers[uid] = subscriber] *)
Definition insertSubscriber (d : DispatcherImpl) (uid : string)
  (subscriber : SubscriberWrapper) : M DispatcherImpl :=
  _ ← emit (EvRegistryInsert uid (consumerUpdateLock d));
  mret (withSubscribers d (<[uid := subscriber]> (subscribers d))).

(** The two goroutines of [startConsuming] (error drain and consumption
    loop) are started when the consumer group is not nil; what they do
    afterwards is outside this model. *)
Definition startConsuming (d : DispatcherImpl) (subscriber : SubscriberWrapper)
  : M unit :=
  match ConsumerGroup subscriber with
  | Some _ => emit (EvStartConsuming subscriber (Topic (dispatcherConfig d)))
  | None => mret tt
  end.

Definition callClose (subscriber : SubscriberWrapper) (consumerGroup : Handle)
  : M (option Error) := λ w,
  let err := CloseGroup (trace w) consumerGroup in
  (_ ← emit (EvCloseConsumerGroup subscriber err); mret err) w.

Definition closeConsumerGroup (d : DispatcherImpl)
  (subscriber : SubscriberWrapper) : M DispatcherImpl :=
  match ConsumerGroup subscriber with
  | Some consumerGroup =>
      _ ← closeChan (StopChan subscriber);
      _ ← emit (EvCloseStopChan subscriber);
      err ← callClose subscriber consumerGroup;
      match err with
      | Some _ => mret d
      | None => deleteSubscriber d (UID (Spec subscriber))
      end
  | None => deleteSubscriber d (UID (Spec subscriber))
  end.

Definition Shutdown (d : DispatcherImpl) : M DispatcherImpl :=
  keys ← rangeKeys (subscribers d);
  forRange closeConsumerGroup keys d.

Definition callCreateConsumerGroup (brokers : list string)
  (config : sarama_Config) (groupId : string) : M CreateResult := λ w,
  let r := CreateConsumerGroup (trace w) brokers config groupId in
  (_ ← emit (EvCreateConsumerGroup brokers config groupId r); mret r) w.

(** The state of the first loop of [UpdateSubscriptions]: the dispatcher,
    [activeSubscriptions] (a [map[types.UID]bool] that only ever holds
    [true], that is a set) and [failedSubscriptions]. *)
Definition LoopState : Type :=
  DispatcherImpl * gset string * gmap SubscriberSpec Error.

(** The body of the loop over the specified subscribers. *)
Definition updateOne (config : sarama_Config) (st : LoopState)
  (subscriberSpec : SubscriberSpec) : M LoopState :=
  let '(d, activeSubscriptions, failedSubscriptions) := st in
  match subscribers d !! UID subscriberSpec with
  | None =>
      let groupId := "kafka." +:+ UID subscriberSpec in
      r ← callCreateConsumerGroup (Brokers (dispatcherConfig d)) config groupId;
      match cgErr r with
      | Some err =>
          mret (d, activeSubscriptions,
                <[subscriberSpec := err]> failedSubscriptions)
      | None =>
          subscriber ← NewSubscriberWrapper subscriberSpec groupId (cgHandle r);
          _ ← startConsuming d subscriber;
          d' ← insertSubscriber d (UID subscriberSpec) subscriber;
          mret (d', {[UID subscriberSpec]} ∪ activeSubscriptions,
                failedSubscriptions)
      end
  | Some _ =>
      mret (d, {[UID subscriberSpec]} ∪ activeSubscriptions,
            failedSubscriptions)
  end.

Fixpoint updateAll (config : sarama_Config) (st : LoopState)
  (subscriberSpecs : list SubscriberSpec) : M LoopState :=
  match subscriberSpecs with
  | [] => mret st
  | subscriberSpec :: rest =>
      st' ← updateOne config st subscriberSpec;
      updateAll config st' rest
  end.

(** The body of the second loop: close what is no longer active, keep the
    spec of what is. *)
Definition sweepOne (activeSubscriptions : gset string) (d : DispatcherImpl)
  (subscriber : SubscriberWrapper) : M DispatcherImpl :=
  if decide (UID (Spec subscriber) ∈ activeSubscriptions)
  then mret (withConfig d
               (setSubscriberSpecs (dispatcherConfig d)
                  (SubscriberSpecs (dispatcherConfig d) ++ [Spec subscriber])))
  else closeConsumerGroup d subscriber.

Definition UpdateSubscriptions (d : DispatcherImpl)
  (subscriberSpecs : list SubscriberSpec)
  : M (DispatcherImpl * option (gmap SubscriberSpec Error)) :=
  match SaramaConfig (dispatcherConfig d) with
  | None => mret (d, None)
  | Some config =>
      d1 ← Lock d;
      st ← updateAll config (d1, ∅, ∅) subscriberSpecs;
      let '(d2, activeSubscriptions, failedSubscriptions) := st in
      let d3 := withConfig d2 (setSubscriberSpecs (dispatcherConfig d2) []) in
      keys ← rangeKeys (subscribers d3);
      d4 ← forRange (sweepOne activeSubscriptions) keys d3;
      d5 ← Unlock d4;
      mret (d5, Some failedSubscriptions)
  end.

(** [ConfigChanged] returns the receiver as it is left behind and the
    replacement dispatcher, [None] for a nil [Dispatcher]. *)
Definition ConfigChanged (d : DispatcherImpl) (configMap : ConfigMap)
  : M (DispatcherImpl * option DispatcherImpl) :=
  match MergeSaramaSettings None configMap with
  | inr _ => mret (d, None)
  | inl merged =>
      let newConfig :=
        match SaramaConfig (dispatcherConfig d) with
        | Some current =>
            UpdateSaramaConfig merged (ClientID current)
              (Net_SASL_User current) (Net_SASL_Password current)
        | None => merged
        end in
      let unchanged :=
        match SaramaConfig (dispatcherConfig d) with
        | Some current => ConfigEqual newConfig current
        | None => false
        end in
      if unchanged then mret (d, None)
      else
        d1 ← Shutdown d;
        let d2 := withConfig d1
                    (setSaramaConfig (dispatcherConfig d1) (Some newConfig)) in
        let newDispatcher := NewDispatcher (dispatcherConfig d2) in
        r ← UpdateSubscriptions newDispatcher
              (SubscriberSpecs (dispatcherConfig d2));
        let '(newDispatcher', failedSubscriptions) := r in
        if decide (0 < len failedSubscriptions)
        then logFatal
               "Failed To Subscribe Kafka Subscriptions For New Dispatcher"
               (len failedSubscriptions)
        else mret (d2, Some newDispatcher')
  end.


(** ** Predicates used in the statements *)

(** The identities of a list of specs. *)
Definition uids (specs : list SubscriberSpec) : gset string :=
  list_to_set (UID <$> specs).

(** Every registration is stored under the UID of its spec.  The only
    write to the registry, in [UpdateSubscriptions], stores under
    [subscriberSpec.UID]. *)
Definition keyed (m : gmap string SubscriberWrapper) : Prop :=
  ∀ k sub, m !! k = Some sub → UID (Spec sub) = k.

(** A clean registry: no registration has had its stop channel closed,
    and the stop channels of the registrations are allocated and pairwise
    different, as [make] guarantees. *)
Definition cleanRegistry (m : gmap string SubscriberWrapper) (w : World)
  : Prop :=
  keyed m
  ∧ (∀ ch, ch ∈ closedChans w → ch < nextChan w)
  ∧ (∀ k sub, m !! k = Some sub →
       StopChan sub < nextChan w ∧ StopChan sub ∉ closedChans w)
  ∧ (∀ k1 k2 sub1 sub2,
       m !! k1 = Some sub1 → m !! k2 = Some sub2 →
       StopChan sub1 = StopChan sub2 → k1 = k2).

(** A clean dispatcher: the mutex is free and the registry is clean. *)
Definition clean (d : DispatcherImpl) (w : World) : Prop :=
  consumerUpdateLock d = false ∧ cleanRegistry (subscribers d) w.

(** The events of the first loop of [UpdateSubscriptions]. *)
Definition loopEvent (e : Event) : Prop :=
  match e with
  | EvCreateConsumerGroup _ _ _ _ | EvStartConsuming _ _
  | EvRegistryInsert _ _ => True
  | _ => False
  end.

(** The configuration a [ConfigChanged] that merged [merged] works with:
    the credentials and the client identifier of the current snapshot are
    put back when there is one. *)
Definition newConfigOf (d : DispatcherImpl) (merged : sarama_Config)
  : sarama_Config :=
  match SaramaConfig (dispatcherConfig d) with
  | Some current =>
      UpdateSaramaConfig merged (ClientID current)
        (Net_SASL_User current) (Net_SASL_Password current)
  | None => merged
  end.

(** The rebuild of [ConfigChanged], after the decision to rebuild. *)
Definition rebuild (d : DispatcherImpl) (newConfig : sarama_Config)
  (specs : list SubscriberSpec)
  : M (DispatcherImpl * option DispatcherImpl) :=
  d1 ← Shutdown d;
  let d2 := withConfig d1
              (setSaramaConfig (dispatcherConfig d1) (Some newConfig)) in
  r ← UpdateSubscriptions (NewDispatcher (dispatcherConfig d2)) specs;
  if decide (0 < len r.2)
  then logFatal "Failed To Subscribe Kafka Subscriptions For New Dispatcher"
         (len r.2)
  else mret (d2, Some r.1).

(** The three credentials of a configuration. *)
Definition credentials (c : sarama_Config) : string * string * string :=
  (ClientID c, Net_SASL_User c, Net_SASL_Password c).

(** Appending events to the trace of a world. *)
Definition addEvents (w : World) (es : list Event) : World :=
  mkWorld (trace w ++ es) (closedChans w) (nextChan w) (rangeCount w).


(** A write to the registry is recorded with the mutex in state [held]. *)
Definition writeUnder (held : bool) (e : Event) : Prop :=
  match e with
  | EvRegistryInsert _ h | EvRegistryDelete _ h => h = held
  | _ => True
  end.

(** The events of [startConsuming]. *)
Definition startEvents (d : DispatcherImpl) (sub : SubscriberWrapper)
  : list Event :=
  match ConsumerGroup sub with
  | Some _ => [EvStartConsuming sub (Topic (dispatcherConfig d))]
  | None => []
  end.

(** The events of the teardown of one registration. *)
Definition teardownEvent (sub : SubscriberWrapper) (e : Event) : Prop :=
  e = EvCloseStopChan sub
  ∨ (∃ err, e = EvCloseConsumerGroup sub err)
  ∨ (∃ held, e = EvRegistryDelete (UID (Spec sub)) held).

(** The spec the sweep keeps for key [k]: that of the registration under
    [k] when [k] is active. *)
Definition keptSpec (active : gset string)
  (m : gmap string SubscriberWrapper) (k : string) : option SubscriberSpec :=
  match m !! k with
  | Some sub => if decide (k ∈ active) then Some (Spec sub) else None
  | None => None
  end.


(** Every registration is stored under the UID of its spec and carries
    the group identifier that [UpdateSubscriptions] derives from that UID. *)
Definition grouped (m : gmap string SubscriberWrapper) : Prop :=
  ∀ k sub, m !! k = Some sub →
    UID (Spec sub) = k ∧ GroupId sub = "kafka." +:+ k.

(** The stop channels of the registrations are allocated and pairwise
    different. *)
Definition ownChans (m : gmap string SubscriberWrapper) (w : World) : Prop :=
  (∀ k sub, m !! k = Some sub → StopChan sub < nextChan w)
  ∧ (∀ k1 k2 sub1 sub2,
       m !! k1 = Some sub1 → m !! k2 = Some sub2 →
       StopChan sub1 = StopChan sub2 → k1 = k2).

(** The error recorded with a close of a consumer group is what [Close]
    answered. *)
Definition closeAnswer (e : Event) : Prop :=
  match e with
  | EvCloseConsumerGroup sub err =>
      ∃ tr h, ConsumerGroup sub = Some h ∧ err = CloseGroup tr h
  | _ => True
  end.

(** Every close of a consumer group in [es] comes directly after the close
    of the stop channel of the same registration; [prev] is the event just
    before [es]. *)
Fixpoint signalFirst (prev : option Event) (es : list Event) : Prop :=
  match es with
  | [] => True
  | e :: es' =>
      match e with
      | EvCloseConsumerGroup sub _ => prev = Some (EvCloseStopChan sub)
      | _ => True
      end
      ∧ signalFirst (Some e) es'
  end.

(** What the teardown of the registration [sub], which was under [k], has
    left when the call returns the dispatcher [d'] in the world [w'] after
    the events [delta].  Without consumer group: the registration is
    deleted and no [Close] was called for it.  With the consumer group [h]:
    the stop channel was closed and [Close] was called directly after it,
    once; the recorded error is what [Close] answered; the stop channel is
    closed; and the registration is still in the registry exactly when
    [Close] failed. *)
Definition tornDown (d' : DispatcherImpl) (w' : World) (delta : list Event)
  (k : string) (sub : SubscriberWrapper) : Prop :=
  match ConsumerGroup sub with
  | None =>
      subscribers d' !! k = None
      ∧ ∀ err, EvCloseConsumerGroup sub err ∉ delta
  | Some h =>
      ∃ err l1 l2,
        delta = l1 ++ EvCloseStopChan sub :: EvCloseConsumerGroup sub err :: l2
        ∧ (∀ err', EvCloseConsumerGroup sub err' ∈ delta → err' = err)
        ∧ (∃ tr, err = CloseGroup tr h)
        ∧ StopChan sub ∈ closedChans w'
        ∧ subscribers d' !! k = match err with
                                | Some _ => Some sub
                                | None => None
                                end
  end.

(** A call of the factory made for one of [specs] that was not registered
    in [m], with the brokers and the configuration of the dispatcher. *)
Definition factoryCall (c : DispatcherConfig)
  (m : gmap string SubscriberWrapper) (specs : list SubscriberSpec)
  (e : Event) : Prop :=
  match e with
  | EvCreateConsumerGroup brokers config groupId r =>
      brokers = Brokers c ∧ SaramaConfig c = Some config
      ∧ ∃ spec, spec ∈ specs ∧ groupId = "kafka." +:+ UID spec
                ∧ m !! UID spec = None
  | _ => True
  end.

(** ** Basic facts *)

Ltac munfold := unfold mbind, mret, M_bind, M_ret in *.

Lemma returns_Ok {A : Type} (r : Result A) (default : A) :
  returns r = true → r = Ok (resultValue r default) (resultWorld r).
Proof. by destruct r. Qed.

Lemma bind_Ok {A B : Type} (m : M A) (f : A → M B) w b w' :
  (a ← m; f a) w = Ok b w' →
  ∃ a w1, m w = Ok a w1 ∧ f a w1 = Ok b w'.
Proof. munfold. destruct (m w); naive_solver. Qed.

Lemma rangeOrder_perm choose keys :
  rangeOrder (length keys) choose keys ≡ₚ keys.
Proof.
  remember (length keys) as n eqn:Hn.
  revert keys Hn. induction n as [|n IH]; intros keys Hn.
  - by destruct keys.
  - simpl.
    assert (Hlt : choose keys `mod` length keys < length keys)
      by (apply Nat.mod_upper_bound; lia).
    destruct (lookup_lt_is_Some_2 _ _ Hlt) as [k Hk].
    rewrite Hk. etrans; [|symmetry; exact (delete_Permutation keys _ k Hk)].
    apply perm_skip. apply IH.
    rewrite length_delete by eauto. lia.
Qed.

Lemma rangeKeys_spec m w :
  ∃ keys, rangeKeys m w = Ok keys (mkWorld (trace w) (closedChans w)
                                     (nextChan w) (S (rangeCount w)))
          ∧ NoDup keys ∧ (∀ k, k ∈ keys ↔ is_Some (m !! k)).
Proof.
  eexists. split; [reflexivity|].
  pose proof (rangeOrder_perm (pick (rangeCount w)) ((map_to_list m).*1)) as Hp.
  split.
  - rewrite Hp. apply NoDup_fst_map_to_list.
  - intros k. rewrite Hp. rewrite list_elem_of_fmap. split.
    + intros [[k' x] [-> Hin]]. apply elem_of_map_to_list in Hin. eauto.
    + intros [x Hx]. exists (k, x). split; [done|].
      by apply elem_of_map_to_list.
Qed.

Lemma forRange_ext body1 body2 keys d w :
  (∀ d sub w, body1 d sub w = body2 d sub w) →
  forRange body1 keys d w = forRange body2 keys d w.
Proof.
  intros Hext. revert d w. induction keys as [|k keys IH]; intros d w; [done|].
  simpl. destruct (subscribers d !! k); [|done].
  munfold. rewrite Hext. destruct (body2 d s w); auto.
Qed.

(** What [closeConsumerGroup] does, case by case. *)
Lemma closeConsumerGroup_unfold d sub w :
  closeConsumerGroup d sub w =
  match ConsumerGroup sub with
  | None =>
      Ok (withSubscribers d (delete (UID (Spec sub)) (subscribers d)))
         (addEvents w [EvRegistryDelete (UID (Spec sub)) (consumerUpdateLock d)])
  | Some h =>
      if decide (StopChan sub ∈ closedChans w)
      then Panic "close of closed channel" w
      else
        let w1 := mkWorld (trace w) ({[StopChan sub]} ∪ closedChans w)
                    (nextChan w) (rangeCount w) in
        match CloseGroup (trace w ++ [EvCloseStopChan sub]) h with
        | Some e =>
            Ok d (addEvents w1 [EvCloseStopChan sub;
                                EvCloseConsumerGroup sub (Some e)])
        | None =>
            Ok (withSubscribers d (delete (UID (Spec sub)) (subscribers d)))
               (addEvents w1 [EvCloseStopChan sub;
                              EvCloseConsumerGroup sub None;
                              EvRegistryDelete (UID (Spec sub))
                                (consumerUpdateLock d)])
        end
  end.
Proof.
  unfold closeConsumerGroup, deleteSubscriber, callClose, closeChan, emit,
    addEvents.
  destruct (ConsumerGroup sub) as [h|]; [|done].
  munfold. case_decide; [done|]. simpl.
  destruct (CloseGroup _ h); simpl; by rewrite <- ?app_assoc.
Qed.

Lemma sweepOne_inactive active d sub w :
  UID (Spec sub) ∉ active →
  sweepOne active d sub w = closeConsumerGroup d sub w.
Proof. intros. unfold sweepOne. by case_decide. Qed.

Lemma Shutdown_as_sweep d w :
  Shutdown d w = (keys ← rangeKeys (subscribers d);
                  forRange (sweepOne ∅) keys d) w.
Proof.
  unfold Shutdown, rangeKeys. munfold.
  apply forRange_ext. intros. symmetry. apply sweepOne_inactive. set_solver.
Qed.


(** What one round of the first loop does, case by case. *)
Lemma updateOne_unfold config d act fl s w :
  updateOne config (d, act, fl) s w =
  match subscribers d !! UID s with
  | Some _ => Ok (d, {[UID s]} ∪ act, fl) w
  | None =>
      let gid := "kafka." +:+ UID s in
      let r := CreateConsumerGroup (trace w) (Brokers (dispatcherConfig d))
                 config gid in
      let ev := EvCreateConsumerGroup (Brokers (dispatcherConfig d))
                  config gid r in
      match cgErr r with
      | Some e => Ok (d, act, <[s := e]> fl) (addEvents w [ev])
      | None =>
          let sub := mkSubscriberWrapper s gid (cgHandle r) (nextChan w) in
          Ok (withSubscribers d (<[UID s := sub]> (subscribers d)),
              {[UID s]} ∪ act, fl)
             (mkWorld (trace w ++ ev :: startEvents d sub
                         ++ [EvRegistryInsert (UID s) (consumerUpdateLock d)])
                (closedChans w) (S (nextChan w)) (rangeCount w))
      end
  end.
Proof.
  unfold updateOne. destruct (subscribers d !! UID s); [done|].
  unfold callCreateConsumerGroup, NewSubscriberWrapper, startConsuming,
    insertSubscriber, makeChan, emit, addEvents, startEvents.
  munfold. simpl. destruct (cgErr _); [done|]. simpl.
  destruct (cgHandle _); simpl; by rewrite <- ?app_assoc.
Qed.

Lemma updateAll_total config specs st w :
  ∃ st' w', updateAll config st specs w = Ok st' w'.
Proof.
  revert st w. induction specs as [|s specs IH]; intros st w; simpl.
  - by eexists _, _.
  - munfold. destruct st as [[d act] fl]. rewrite updateOne_unfold.
    destruct (subscribers d !! UID s); [apply IH|].
    simpl. destruct (cgErr _); apply IH.
Qed.

(** Invariants of the two loops. *)
Lemma updateAll_inv config (P : LoopState → World → Prop) specs :
  (∀ st s w st' w', s ∈ specs →
     P st w → updateOne config st s w = Ok st' w' → P st' w') →
  ∀ st w st' w',
    P st w → updateAll config st specs w = Ok st' w' → P st' w'.
Proof.
  induction specs as [|s specs IH]; intros Hstep st w st' w' HP Hrun; simpl in *.
  - munfold. by simplify_eq.
  - apply bind_Ok in Hrun as (st1 & w1 & H1 & H2).
    eapply IH; [| |exact H2].
    + intros. eapply Hstep; [|done..]. set_solver.
    + eapply Hstep; [|done..]. set_solver.
Qed.

Lemma forRange_inv (P : DispatcherImpl → World → Prop) body keys :
  (∀ d k sub w d' w', k ∈ keys → subscribers d !! k = Some sub →
     P d w → body d sub w = Ok d' w' → P d' w') →
  ∀ d w d' w', P d w → forRange body keys d w = Ok d' w' → P d' w'.
Proof.
  induction keys as [|k keys IH]; intros Hstep d w d' w' HP Hrun; simpl in *.
  - munfold. by simplify_eq.
  - destruct (subscribers d !! k) as [sub|] eqn:Hk.
    + apply bind_Ok in Hrun as (d1 & w1 & H1 & H2).
      eapply IH; [| |exact H2].
      * intros. eapply Hstep; [|done..]. set_solver.
      * eapply Hstep; [|done..]. set_solver.
    + eapply IH; [|done..]. intros. eapply Hstep; [|done..]. set_solver.
Qed.

(** Neither loop ends the process through the logger, and only a teardown
    can panic. *)
Lemma closeConsumerGroup_not_Fatal d sub w msg n w' :
  closeConsumerGroup d sub w ≠ Fatal msg n w'.
Proof.
  rewrite closeConsumerGroup_unfold.
  destruct (ConsumerGroup sub); [|done].
  case_decide; [done|]. simpl. by destruct (CloseGroup _ _).
Qed.

Lemma sweepOne_not_Fatal active d sub w msg n w' :
  sweepOne active d sub w ≠ Fatal msg n w'.
Proof.
  unfold sweepOne. case_decide; [done|]. apply closeConsumerGroup_not_Fatal.
Qed.

Lemma forRange_not_Fatal body keys :
  (∀ d sub w msg n w', body d sub w ≠ Fatal msg n w') →
  ∀ d w msg n w', forRange body keys d w ≠ Fatal msg n w'.
Proof.
  intros Hbody. induction keys as [|k keys IH]; intros d w msg n w'; simpl.
  - done.
  - destruct (subscribers d !! k) as [sub|]; [|apply IH].
    munfold. destruct (body d sub w) eqn:Hb; try done.
    intros ?. simplify_eq. by eapply Hbody.
Qed.

Lemma Shutdown_not_Fatal d w msg n w' : Shutdown d w ≠ Fatal msg n w'.
Proof.
  unfold Shutdown, rangeKeys. munfold.
  apply forRange_not_Fatal, closeConsumerGroup_not_Fatal.
Qed.

Lemma UpdateSubscriptions_not_Fatal d specs w msg n w' :
  UpdateSubscriptions d specs w ≠ Fatal msg n w'.
Proof.
  unfold UpdateSubscriptions.
  destruct (SaramaConfig _) as [config|]; [|done].
  unfold Lock, Unlock, rangeKeys. munfold.
  destruct (consumerUpdateLock d); [done|].
  destruct (updateAll_total config specs (withLock d true, ∅, ∅) w)
    as ([[d2 act] fl] & w2 & ->).
  simpl. match goal with |- context [forRange ?b ?k ?d ?w] =>
    destruct (forRange b k d w) eqn:Hsweep end; try done.
  by apply forRange_not_Fatal in Hsweep; [|apply sweepOne_not_Fatal].
Qed.


(** ** What the loops leave alone *)

Lemma closeConsumerGroup_frame d sub w d' w' :
  closeConsumerGroup d sub w = Ok d' w' →
  dispatcherConfig d' = dispatcherConfig d
  ∧ consumerUpdateLock d' = consumerUpdateLock d.
Proof.
  rewrite closeConsumerGroup_unfold.
  destruct (ConsumerGroup sub); [|by intros; simplify_eq].
  case_decide; [done|]. simpl.
  destruct (CloseGroup _ _); by intros; simplify_eq.
Qed.

Lemma Shutdown_frame d w d' w' :
  Shutdown d w = Ok d' w' →
  dispatcherConfig d' = dispatcherConfig d
  ∧ consumerUpdateLock d' = consumerUpdateLock d.
Proof.
  unfold Shutdown, rangeKeys. munfold. intros Hrun.
  eapply (forRange_inv
    (λ d1 _, dispatcherConfig d1 = dispatcherConfig d
             ∧ consumerUpdateLock d1 = consumerUpdateLock d)) in Hrun;
    [done| |done].
  intros d1 k sub w1 d2 w2 _ _ [<- <-] Hc.
  by apply closeConsumerGroup_frame in Hc.
Qed.

Lemma updateOne_frame config st s w st' w' :
  updateOne config st s w = Ok st' w' →
  dispatcherConfig st'.1.1 = dispatcherConfig st.1.1
  ∧ consumerUpdateLock st'.1.1 = consumerUpdateLock st.1.1
  ∧ closedChans w' = closedChans w
  ∧ rangeCount w' = rangeCount w.
Proof.
  destruct st as [[d act] fl]. rewrite updateOne_unfold.
  destruct (subscribers d !! UID s); [by intros; simplify_eq|].
  simpl. destruct (cgErr _); by intros; simplify_eq.
Qed.

Lemma updateAll_frame config specs st w st' w' :
  updateAll config st specs w = Ok st' w' →
  dispatcherConfig st'.1.1 = dispatcherConfig st.1.1
  ∧ consumerUpdateLock st'.1.1 = consumerUpdateLock st.1.1
  ∧ closedChans w' = closedChans w
  ∧ rangeCount w' = rangeCount w.
Proof.
  intros Hrun.
  eapply (updateAll_inv config
    (λ st1 w1, dispatcherConfig st1.1.1 = dispatcherConfig st.1.1
               ∧ consumerUpdateLock st1.1.1 = consumerUpdateLock st.1.1
               ∧ closedChans w1 = closedChans w
               ∧ rangeCount w1 = rangeCount w)) in Hrun; [done| |done].
  intros st1 s w1 st2 w2 _ (<- & <- & <- & <-) H1.
  by apply updateOne_frame in H1.
Qed.

Lemma sweepOne_frame active d sub w d' w' :
  sweepOne active d sub w = Ok d' w' →
  setSubscriberSpecs (dispatcherConfig d') []
    = setSubscriberSpecs (dispatcherConfig d) []
  ∧ consumerUpdateLock d' = consumerUpdateLock d.
Proof.
  unfold sweepOne. case_decide.
  - munfold. by intros; simplify_eq.
  - intros Hc. apply closeConsumerGroup_frame in Hc as [-> ->]. done.
Qed.

(** The pieces of a run of [UpdateSubscriptions] that has a configuration
    and returns. *)
Lemma UpdateSubscriptions_Ok d specs w d' failed w' :
  UpdateSubscriptions d specs w = Ok (d', failed) w' →
  match SaramaConfig (dispatcherConfig d) with
  | None => d' = d ∧ failed = None ∧ w' = w
  | Some config =>
      consumerUpdateLock d = false ∧
      ∃ d2 act fl w2 d4,
        updateAll config (withLock d true, ∅, ∅) specs w = Ok (d2, act, fl) w2
        ∧ forRange (sweepOne act)
            (rangeOrder (length (map_to_list (subscribers d2)).*1)
               (pick (rangeCount w2)) (map_to_list (subscribers d2)).*1)
            (withConfig d2 (setSubscriberSpecs (dispatcherConfig d2) []))
            (mkWorld (trace w2) (closedChans w2) (nextChan w2)
               (S (rangeCount w2)))
          = Ok d4 w'
        ∧ d' = withLock d4 false ∧ failed = Some fl
  end.
Proof.
  unfold UpdateSubscriptions.
  destruct (SaramaConfig _) as [config|]; [|by munfold; intros; simplify_eq].
  unfold Lock, Unlock, rangeKeys. munfold.
  destruct (consumerUpdateLock d); [done|]. split; [done|].
  destruct (updateAll_total config specs (withLock d true, ∅, ∅) w)
    as ([[d2 act] fl] & w2 & Hloop). rewrite Hloop in H. simpl in H.
  match type of H with context [forRange ?b ?k ?d ?w] =>
    destruct (forRange b k d w) as [d4 w4| | |] eqn:Hsweep end; try done.
  simplify_eq. by eexists _, _, _, _, _.
Qed.

Lemma UpdateSubscriptions_frame d specs w d' failed w' :
  UpdateSubscriptions d specs w = Ok (d', failed) w' →
  setSubscriberSpecs (dispatcherConfig d') []
    = setSubscriberSpecs (dispatcherConfig d) []
  ∧ consumerUpdateLock d' = consumerUpdateLock d.
Proof.
  intros Hrun. apply UpdateSubscriptions_Ok in Hrun.
  destruct (SaramaConfig _) as [config|]; [|by destruct Hrun as (-> & _)].
  destruct Hrun as (Hlock & d2 & act & fl & w2 & d4 & Hloop & Hsweep & -> & ->).
  apply updateAll_frame in Hloop as (Hc & Hl2 & _). simpl in Hc, Hl2.
  eapply (forRange_inv
    (λ d1 _, setSubscriberSpecs (dispatcherConfig d1) []
               = setSubscriberSpecs (dispatcherConfig d) []
             ∧ consumerUpdateLock d1 = true)) in Hsweep.
  - destruct Hsweep as [Hs _]. simpl. by rewrite Hs, Hlock.
  - intros d1 k sub w1 d5 w5 _ _ [<- Hl] Hs.
    apply sweepOne_frame in Hs as [-> ->]. done.
  - simpl. by rewrite Hc.
Qed.


(** ** The loop over the specified subscribers *)

Lemma elem_of_uids k specs : k ∈ uids specs ↔ ∃ s, s ∈ specs ∧ UID s = k.
Proof.
  unfold uids. rewrite elem_of_list_to_set, list_elem_of_fmap. naive_solver.
Qed.

Lemma uids_cons s specs : uids (s :: specs) = {[UID s]} ∪ uids specs.
Proof. done. Qed.

Lemma uids_app l1 l2 : uids (l1 ++ l2) = uids l1 ∪ uids l2.
Proof. unfold uids. by rewrite fmap_app, list_to_set_app_L. Qed.

Lemma updateAll_cons config st s specs w :
  updateAll config st (s :: specs) w
  = (st' ← updateOne config st s; updateAll config st' specs) w.
Proof. done. Qed.

Lemma updateOne_clean config d act fl s w d' act' fl' w' :
  cleanRegistry (subscribers d) w →
  updateOne config (d, act, fl) s w = Ok (d', act', fl') w' →
  cleanRegistry (subscribers d') w'.
Proof.
  intros (Hkeyed & Hclosed & Hchans & Hdist). rewrite updateOne_unfold.
  destruct (subscribers d !! UID s) eqn:Hlk; [by intros; simplify_eq|].
  simpl. destruct (cgErr _); intros ?; simplify_eq; [done|].
  unfold cleanRegistry. simpl. split; [|split; [|split]].
  - intros k sub [[<- <-]|[_ Hs]]%lookup_insert_Some; [done|by apply Hkeyed].
  - intros ch Hch. apply Hclosed in Hch. lia.
  - intros k sub [[<- <-]|[_ Hs]]%lookup_insert_Some; simpl.
    + split; [lia|]. intros Hin%Hclosed. lia.
    + apply Hchans in Hs as [? ?]. split; [lia|done].
  - intros k1 k2 sub1 sub2 [[<- <-]|[? H1]]%lookup_insert_Some
      [[<- <-]|[? H2]]%lookup_insert_Some; simpl; try done.
    + apply Hchans in H2 as [? ?]. lia.
    + apply Hchans in H1 as [? ?]. lia.
    + by eapply Hdist.
Qed.

Lemma updateAll_clean config specs d act fl w d' act' fl' w' :
  cleanRegistry (subscribers d) w →
  updateAll config (d, act, fl) specs w = Ok (d', act', fl') w' →
  cleanRegistry (subscribers d') w'.
Proof.
  intros Hclean Hrun.
  eapply (updateAll_inv config
            (λ st w, cleanRegistry (subscribers st.1.1) w)) in Hrun;
    [done| |done].
  intros [[d1 a1] f1] s w1 [[d2 a2] f2] w2 _ H1 H2. simpl in *.
  by eapply updateOne_clean.
Qed.

(** The registry, the active set and the events after the first loop. *)
Lemma updateAll_registry config specs d act fl w d' act' fl' w' :
  updateAll config (d, act, fl) specs w = Ok (d', act', fl') w' →
  (∀ k sub, subscribers d !! k = Some sub → subscribers d' !! k = Some sub)
  ∧ (∀ k, k ∉ uids specs → subscribers d' !! k = subscribers d !! k)
  ∧ (∀ k, k ∈ act' ↔ k ∈ act ∨ (k ∈ uids specs ∧ is_Some (subscribers d' !! k)))
  ∧ (∀ k sub, subscribers d' !! k = Some sub → subscribers d !! k = None →
       Spec sub ∈ specs ∧ UID (Spec sub) = k
       ∧ GroupId sub = "kafka." +:+ k)
  ∧ ∃ delta, trace w' = trace w ++ delta ∧ Forall loopEvent delta.
Proof.
  revert d act fl w. induction specs as [|s specs IH]; intros d act fl w Hrun.
  - simpl in Hrun. munfold. simplify_eq. repeat split; try done.
    + set_solver.
    + intros [?|[? _]]; set_solver.
    + congruence.
    + congruence.
    + congruence.
    + exists []. by rewrite app_nil_r.
  - rewrite updateAll_cons in Hrun.
    apply bind_Ok in Hrun as ([[d1 a1] f1] & w1 & Hstep & Hrun).
    apply IH in Hrun as (Hmono & Hout & Hact & Hnew & delta & Htr & Hev).
    rewrite uids_cons. rewrite updateOne_unfold in Hstep.
    destruct (subscribers d !! UID s) as [sub0|] eqn:Hlk.
    { simplify_eq. repeat split; try done.
      - intros k Hk. apply Hout. set_solver.
      - rewrite Hact. intros [[->%elem_of_singleton|?]%elem_of_union|[? ?]].
        + right. split; [set_solver|]. eexists. by apply Hmono.
        + by left.
        + right. split; [set_solver|done].
      - rewrite Hact. intros [?|[[->%elem_of_singleton|?]%elem_of_union ?]].
        + left. set_solver.
        + left. set_solver.
        + by right.
      - apply Hnew in H as (? & ? & ?); [set_solver|done].
      - by apply Hnew in H as (? & ? & ?).
      - by apply Hnew in H as (? & ? & ?).
      - by exists delta. }
    simpl in Hstep. destruct (cgErr _) eqn:Herr; simplify_eq.
    + (* the creation failed *)
      repeat split; try done.
      * intros k Hk. apply Hout. set_solver.
      * rewrite Hact. intros [?|[? ?]]; [by left|]. right. split; [set_solver|done].
      * rewrite Hact. intros [?|[[->%elem_of_singleton|?]%elem_of_union Hsome]];
          [by left| |by right].
        right. split; [|done]. destruct (decide (UID s ∈ uids specs)); [done|].
        destruct Hsome as [x Hx]. rewrite Hout in Hx by done. congruence.
      * apply Hnew in H as (? & ? & ?); [set_solver|done].
      * by apply Hnew in H as (? & ? & ?).
      * by apply Hnew in H as (? & ? & ?).
      * eexists. rewrite Htr. simpl. rewrite <- app_assoc. split; [done|].
        by constructor.
    + (* a registration was created *)
      simpl in *. repeat split.
      * intros k sub Hk. apply Hmono. rewrite lookup_insert_ne; [done|].
        intros <-. congruence.
      * intros k Hk. rewrite Hout by set_solver.
        apply lookup_insert_ne. set_solver.
      * rewrite Hact. intros [[->%elem_of_singleton|?]%elem_of_union|[? ?]].
        -- right. split; [set_solver|]. eexists. apply Hmono.
           apply lookup_insert_eq.
        -- by left.
        -- right. split; [set_solver|done].
      * rewrite Hact. intros [?|[[->%elem_of_singleton|?]%elem_of_union ?]].
        -- left. set_solver.
        -- left. set_solver.
        -- by right.
      * destruct (decide (k = UID s)) as [->|Hne].
        -- pose proof (Hmono (UID s) _ (lookup_insert_eq _ _ _)) as Hx.
           rewrite Hx in H. simplify_eq. simpl. set_solver.
        -- apply Hnew in H as (? & ? & ?); [set_solver|].
           by rewrite lookup_insert_ne.
      * destruct (decide (k = UID s)) as [->|Hne].
        -- pose proof (Hmono (UID s) _ (lookup_insert_eq _ _ _)) as Hx.
           rewrite Hx in H. by simplify_eq.
        -- apply Hnew in H as (? & ? & ?); [done|].
           by rewrite lookup_insert_ne.
      * destruct (decide (k = UID s)) as [->|Hne].
        -- pose proof (Hmono (UID s) _ (lookup_insert_eq _ _ _)) as Hx.
           rewrite Hx in H. by simplify_eq.
        -- apply Hnew in H as (? & ? & ?); [done|].
           by rewrite lookup_insert_ne.
      * eexists. rewrite Htr. simpl. rewrite <- app_assoc. split; [done|].
        simpl. constructor; [done|]. apply Forall_app. split; [|done].
        unfold startEvents. simpl.
        destruct (cgHandle _); repeat constructor.
Qed.


(** ** The sweep over the registry *)

Lemma sweepOne_cases active d sub w d' w' :
  sweepOne active d sub w = Ok d' w' →
  consumerUpdateLock d' = consumerUpdateLock d
  ∧ nextChan w' = nextChan w ∧ rangeCount w' = rangeCount w
  ∧ ((UID (Spec sub) ∈ active ∧ subscribers d' = subscribers d
      ∧ SubscriberSpecs (dispatcherConfig d')
        = SubscriberSpecs (dispatcherConfig d) ++ [Spec sub]
      ∧ w' = w)
     ∨ ((UID (Spec sub) ∉ active)
        ∧ SubscriberSpecs (dispatcherConfig d')
          = SubscriberSpecs (dispatcherConfig d)
        ∧ ((ConsumerGroup sub = None
            ∧ subscribers d' = delete (UID (Spec sub)) (subscribers d)
            ∧ closedChans w' = closedChans w
            ∧ trace w' = trace w ++ [EvRegistryDelete (UID (Spec sub))
                                       (consumerUpdateLock d)])
           ∨ (∃ h err,
                ConsumerGroup sub = Some h
                ∧ (StopChan sub ∉ closedChans w)
                ∧ closedChans w' = {[StopChan sub]} ∪ closedChans w
                ∧ trace w' = trace w ++ (EvCloseStopChan sub
                    :: EvCloseConsumerGroup sub err
                    :: match err with
                       | None => [EvRegistryDelete (UID (Spec sub))
                                    (consumerUpdateLock d)]
                       | Some _ => []
                       end)
                ∧ subscribers d' = match err with
                                   | None => delete (UID (Spec sub))
                                               (subscribers d)
                                   | Some _ => subscribers d
                                   end)))).
Proof.
  unfold sweepOne. case_decide as Hact.
  - munfold. intros ?; simplify_eq. simpl. repeat split; try done. by left.
  - rewrite closeConsumerGroup_unfold.
    destruct (ConsumerGroup sub) as [h|] eqn:Hh.
    + case_decide as Hc; [done|]. simpl.
      destruct (CloseGroup _ h) as [e|] eqn:He; intros ?; simplify_eq; simpl;
        (repeat split; try done); right; (repeat split; try done); right.
      * exists h, (Some e). by repeat split.
      * exists h, None. by repeat split.
    + intros ?; simplify_eq. simpl. repeat split; try done.
      right. repeat split; try done. by left.
Qed.

Lemma sweepOne_registry active d k sub w d1 w1 :
  keyed (subscribers d) → subscribers d !! k = Some sub →
  sweepOne active d sub w = Ok d1 w1 →
  keyed (subscribers d1)
  ∧ (∀ k0, k0 ≠ k → subscribers d1 !! k0 = subscribers d !! k0)
  ∧ (k ∈ active → subscribers d1 = subscribers d)
  ∧ (∀ k0 s, subscribers d1 !! k0 = Some s → subscribers d !! k0 = Some s)
  ∧ SubscriberSpecs (dispatcherConfig d1)
    = (SubscriberSpecs (dispatcherConfig d)
         ++ if decide (k ∈ active) then [Spec sub] else [])
  ∧ nextChan w1 = nextChan w
  ∧ consumerUpdateLock d1 = consumerUpdateLock d.
Proof.
  intros Hkeyed Hk Hrun. pose proof (Hkeyed _ _ Hk) as Huid.
  apply sweepOne_cases in Hrun as (Hl & Hn & _ & Hcases).
  rewrite Huid in Hcases.
  assert (Hdel : keyed (delete k (subscribers d))).
  { intros k0 s [_ Hs]%lookup_delete_Some. by apply Hkeyed. }
  destruct Hcases as [(Ha & -> & Hspecs & ->)
                     |(Ha & Hspecs & [(_ & -> & _)|(h & err & _ & _ & _ & _ & ->)])].
  - rewrite decide_True by done. by repeat split.
  - rewrite decide_False, app_nil_r by done. repeat split; try done.
    + intros. by rewrite lookup_delete_ne.
    + by intros k0 s [_ Hs]%lookup_delete_Some.
  - rewrite decide_False, app_nil_r by done.
    destruct err; repeat split; try done.
    + intros. by rewrite lookup_delete_ne.
    + by intros k0 s [_ Hs]%lookup_delete_Some.
Qed.

Lemma omap_keptSpec_ext active m1 m2 (keys : list string) :
  (∀ k, k ∈ keys → m1 !! k = m2 !! k) →
  omap (keptSpec active m1) keys = omap (keptSpec active m2) keys.
Proof.
  induction keys as [|k keys IH]; intros Heq; [done|].
  change (k :: keys) with ([k] ++ keys). rewrite !omap_app.
  rewrite IH by (intros; apply Heq; set_solver). f_equal.
  simpl. unfold keptSpec. by rewrite (Heq k) by set_solver.
Qed.

(** The registry and the retained specs after the sweep. *)
Lemma sweep_registry active keys d w d' w' :
  keyed (subscribers d) → NoDup keys →
  forRange (sweepOne active) keys d w = Ok d' w' →
  keyed (subscribers d')
  ∧ (∀ k, k ∉ keys ∨ k ∈ active → subscribers d' !! k = subscribers d !! k)
  ∧ (∀ k sub, subscribers d' !! k = Some sub → subscribers d !! k = Some sub)
  ∧ SubscriberSpecs (dispatcherConfig d')
    = SubscriberSpecs (dispatcherConfig d)
        ++ omap (keptSpec active (subscribers d)) keys
  ∧ nextChan w' = nextChan w
  ∧ consumerUpdateLock d' = consumerUpdateLock d.
Proof.
  revert d w. induction keys as [|k keys IH]; intros d w Hkeyed Hnd Hrun.
  - simpl in Hrun. munfold. simplify_eq. rewrite app_nil_r. by repeat split.
  - apply NoDup_cons in Hnd as [Hk Hnd]. simpl in Hrun. simpl omap.
    unfold keptSpec at 1.
    destruct (subscribers d !! k) as [sub|] eqn:Hlk.
    + apply bind_Ok in Hrun as (d1 & w1 & Hstep & Hrun).
      destruct (sweepOne_registry _ _ _ _ _ _ _ Hkeyed Hlk Hstep)
        as (Hkeyed1 & Hne & Hact & Hsub & Hspecs & Hnext & Hlock).
      destruct (IH _ _ Hkeyed1 Hnd Hrun)
        as (Hkeyed' & Hsame & Hsub' & Hspecs' & Hnext' & Hlock').
      split; [done|]. split; [|split; [|split; [|split]]].
      * intros k0 [Hk0| Hk0].
        -- rewrite Hsame by set_solver. apply Hne. set_solver.
        -- rewrite Hsame by auto.
           destruct (decide (k0 = k)) as [->|]; [by rewrite Hact|by apply Hne].
      * intros k0 s Hs. by apply Hsub, Hsub'.
      * rewrite Hspecs', Hspecs.
        rewrite (omap_keptSpec_ext active (subscribers d1) (subscribers d)).
        2: { intros k0 Hk0. apply Hne. set_solver. }
        case_decide; by rewrite <- ?app_assoc.
      * congruence.
      * congruence.
    + destruct (IH _ _ Hkeyed Hnd Hrun)
        as (Hkeyed' & Hsame & Hsub' & Hspecs' & Hnext' & Hlock').
      repeat split; try done.
      intros k0 [Hk0|Hk0]; apply Hsame; set_solver.
Qed.


(** What one round of the sweep does to the world. *)
Lemma sweepOne_world active d k sub w d1 w1 :
  keyed (subscribers d) → subscribers d !! k = Some sub →
  sweepOne active d sub w = Ok d1 w1 →
  ∃ head,
    trace w1 = trace w ++ head
    ∧ (∀ e, e ∈ head → (k ∉ active) ∧ teardownEvent sub e)
    ∧ (∀ c, c ∈ closedChans w1 ↔
            c ∈ closedChans w
            ∨ ((k ∉ active) ∧ is_Some (ConsumerGroup sub) ∧ StopChan sub = c))
    ∧ (k ∉ active →
         match ConsumerGroup sub with
         | None => subscribers d1 !! k = None
                   ∧ ∀ err', EvCloseConsumerGroup sub err' ∉ head
         | Some h =>
             ∃ err l2,
               head = EvCloseStopChan sub :: EvCloseConsumerGroup sub err :: l2
               ∧ (∀ err', EvCloseConsumerGroup sub err' ∈ head → err' = err)
               ∧ subscribers d1 !! k = match err with
                                       | Some _ => Some sub
                                       | None => None
                                       end
         end).
Proof.
  intros Hkeyed Hk Hrun. pose proof (Hkeyed _ _ Hk) as Huid.
  apply sweepOne_cases in Hrun as (_ & _ & _ & Hcases).
  rewrite Huid in Hcases.
  destruct Hcases as [(Ha & _ & _ & ->)
    |(Ha & _ & [(Hnil & Hregs & Hcl & Htr)
               |(h & err & Hh & Hopen & Hcl & Htr & Hregs)])].
  - exists []. rewrite app_nil_r. split; [done|].
    split; [by intros ? ?%elem_of_nil|]. split; [|done].
    intros c. split; [by left|]. by intros [?|(? & _)].
  - eexists. split; [exact Htr|]. rewrite Hnil. split; [|split].
    + intros e ->%list_elem_of_singleton. split; [done|].
      right; right. rewrite Huid. by eexists.
    + intros c. rewrite Hcl. split; [by left|].
      by intros [?|(_ & [? ?] & _)].
    + intros _. rewrite Hregs. split; [apply lookup_delete_eq|].
      by intros err' ?%list_elem_of_singleton.
  - eexists. split; [exact Htr|]. rewrite Hh. split; [|split].
    + intros e He. split; [done|].
      apply elem_of_cons in He as [->|He]; [by left|].
      apply elem_of_cons in He as [->|He]; [right; left; by eexists|].
      destruct err; [by apply elem_of_nil in He|].
      apply list_elem_of_singleton in He as ->. right; right.
      rewrite Huid. by eexists.
    + intros c. rewrite Hcl. split.
      * intros [->%elem_of_singleton|?]%elem_of_union; [|by left].
        right. by repeat split.
      * intros [?|(_ & _ & <-)]; set_solver.
    + intros _. exists err. eexists. split; [done|]. split.
      * intros err' Hin. apply elem_of_cons in Hin as [?|Hin]; [done|].
        apply elem_of_cons in Hin as [?|Hin]; [by simplify_eq|].
        destruct err; [by apply elem_of_nil in Hin|].
        by apply list_elem_of_singleton in Hin.
      * rewrite Hregs. destruct err; [done|apply lookup_delete_eq].
Qed.

(** The stop channels and the events after the sweep: exactly the
    registrations that are not active are torn down, each one once, its
    stop channel first and its consumer group next, and it stays in the
    registry exactly when closing the consumer group failed. *)
Lemma sweep_world active keys d w d' w' :
  keyed (subscribers d) → NoDup keys →
  forRange (sweepOne active) keys d w = Ok d' w' →
  (∀ c, c ∈ closedChans w' ↔
        c ∈ closedChans w
        ∨ ∃ k sub, k ∈ keys ∧ (k ∉ active) ∧ subscribers d !! k = Some sub
                   ∧ is_Some (ConsumerGroup sub) ∧ StopChan sub = c)
  ∧ ∃ delta,
      trace w' = trace w ++ delta
      ∧ (∀ e, e ∈ delta →
           ∃ sub, subscribers d !! UID (Spec sub) = Some sub
                  ∧ UID (Spec sub) ∈ keys ∧ (UID (Spec sub) ∉ active)
                  ∧ teardownEvent sub e)
      ∧ (∀ k sub, k ∈ keys → k ∉ active → subscribers d !! k = Some sub →
           match ConsumerGroup sub with
           | None => subscribers d' !! k = None
                     ∧ ∀ err', EvCloseConsumerGroup sub err' ∉ delta
           | Some h =>
               ∃ err l1 l2,
                 delta = l1 ++ EvCloseStopChan sub
                           :: EvCloseConsumerGroup sub err :: l2
                 ∧ (∀ err', EvCloseConsumerGroup sub err' ∈ delta → err' = err)
                 ∧ subscribers d' !! k = match err with
                                         | Some _ => Some sub
                                         | None => None
                                         end
           end).
Proof.
  revert d w. induction keys as [|k keys IH]; intros d w Hkeyed Hnd Hrun.
  - simpl in Hrun. munfold. simplify_eq. split.
    + intros c. split; [by left|]. intros [?|(? & ? & ?%elem_of_nil & _)]; done.
    + exists []. rewrite app_nil_r. split; [done|].
      split; [by intros ? ?%elem_of_nil|by intros ? ? ?%elem_of_nil].
  - apply NoDup_cons in Hnd as [Hk Hnd]. simpl in Hrun.
    destruct (subscribers d !! k) as [sub0|] eqn:Hlk.
    + apply bind_Ok in Hrun as (d1 & w1 & Hstep & Hrun).
      destruct (sweepOne_registry _ _ _ _ _ _ _ Hkeyed Hlk Hstep)
        as (Hkeyed1 & Hne & _ & Hsub & _).
      destruct (sweepOne_world _ _ _ _ _ _ _ Hkeyed Hlk Hstep)
        as (head & Htr1 & Hhead & Hcl1 & Hfate1).
      destruct (sweep_registry _ _ _ _ _ _ Hkeyed1 Hnd Hrun)
        as (_ & Hsame & _).
      destruct (IH _ _ Hkeyed1 Hnd Hrun) as (Hcl & delta & Htr & Hev & Hfate).
      assert (Htail : ∀ k1, k1 ∈ keys →
                subscribers d1 !! k1 = subscribers d !! k1).
      { intros k1 Hk1. apply Hne. set_solver. }
      split.
      * intros c. rewrite Hcl, Hcl1. split.
        -- intros [[?|(? & ? & ?)]|(k1 & sub1 & Hk1 & ? & Hs1 & ? & ?)].
           ++ by left.
           ++ right. exists k, sub0. set_solver.
           ++ right. exists k1, sub1. rewrite <- Htail by done. set_solver.
        -- intros [?|(k1 & sub1 & [->|Hk1]%elem_of_cons & ? & Hs1 & ? & ?)].
           ++ by left; left.
           ++ simplify_eq. left; right. done.
           ++ right. exists k1, sub1. rewrite Htail by done. done.
      * exists (head ++ delta). split; [by rewrite Htr, Htr1, app_assoc|].
        split.
        -- intros e [He|He]%elem_of_app.
           ++ apply Hhead in He as [? ?]. exists sub0.
              rewrite (Hkeyed _ _ Hlk). set_solver.
           ++ apply Hev in He as (sub & Hs & ? & ? & ?). exists sub.
              apply Hsub in Hs. set_solver.
        -- intros k1 sub1 [->|Hk1]%elem_of_cons Hina Hs1.
           ++ simplify_eq. specialize (Hfate1 Hina).
              rewrite (Hsame k) by auto.
              assert (Hnot : ∀ err', EvCloseConsumerGroup sub0 err' ∉ delta).
              { intros err' Hin.
                apply Hev in Hin as (sub & Hs & Hin & _ & Hte).
                destruct Hte as [?|[[? ?]|[? ?]]]; simplify_eq.
                rewrite (Hkeyed _ _ Hlk) in Hin. done. }
              destruct (ConsumerGroup sub0) as [h|].
              2: { destruct Hfate1 as [? Hh]. split; [done|].
                   intros err' [Hin|Hin]%elem_of_app;
                     [by eapply Hh|by eapply Hnot]. }
              destruct Hfate1 as (err & l2 & -> & Huniq & Hreg).
              exists err, [], (l2 ++ delta). split; [done|]. split; [|done].
              intros err' [Hin|Hin]%elem_of_app; [by apply Huniq|].
              by apply Hnot in Hin.
           ++ rewrite <- Htail in Hs1 by done.
              specialize (Hfate _ _ Hk1 Hina Hs1).
              assert (Hnot : ∀ err', EvCloseConsumerGroup sub1 err' ∉ head).
              { intros err' Hin. apply Hhead in Hin as [_ Hte].
                destruct Hte as [?|[[? ?]|[? ?]]]; simplify_eq.
                apply Hsub, Hkeyed in Hs1. rewrite (Hkeyed _ _ Hlk) in Hs1.
                by subst. }
              destruct (ConsumerGroup sub1) as [h|].
              2: { destruct Hfate as [? Hh]. split; [done|].
                   intros err' [Hin|Hin]%elem_of_app;
                     [by eapply Hnot|by eapply Hh]. }
              destruct Hfate as (err & l1 & l2 & -> & Huniq & Hreg).
              exists err, (head ++ l1), l2.
              split; [by rewrite app_assoc|]. split; [|done].
              intros err' [Hin|Hin]%elem_of_app; [|by apply Huniq].
              by apply Hnot in Hin.
    + destruct (IH _ _ Hkeyed Hnd Hrun) as (Hcl & delta & Htr & Hev & Hfate).
      split.
      * intros c. rewrite Hcl. split.
        -- intros [?|(k1 & sub1 & ? & ?)]; [by left|].
           right. exists k1, sub1. set_solver.
        -- intros [?|(k1 & sub1 & [->|Hk1]%elem_of_cons & ? & Hs1 & ?)];
             [by left|congruence|].
           right. by exists k1, sub1.
      * exists delta. split; [done|]. split.
        -- intros e He. apply Hev in He as (sub & ? & ? & ?). exists sub.
           set_solver.
        -- intros k1 sub1 [->|Hk1]%elem_of_cons Hina Hs1; [congruence|].
           by apply Hfate.
Qed.

(** The sweep of a clean registry returns: every stop channel is closed
    at most once. *)
Lemma sweep_total active keys d w :
  NoDup keys → keyed (subscribers d) →
  (∀ k1 k2 sub1 sub2,
     subscribers d !! k1 = Some sub1 → subscribers d !! k2 = Some sub2 →
     StopChan sub1 = StopChan sub2 → k1 = k2) →
  (∀ k sub, k ∈ keys → k ∉ active → subscribers d !! k = Some sub →
     StopChan sub ∉ closedChans w) →
  ∃ d' w', forRange (sweepOne active) keys d w = Ok d' w'.
Proof.
  revert d w. induction keys as [|k keys IH]; intros d w Hnd Hkeyed Hdist Hopen.
  - by eexists _, _.
  - apply NoDup_cons in Hnd as [Hk Hnd]. simpl.
    destruct (subscribers d !! k) as [sub0|] eqn:Hlk.
    + assert (∃ d1 w1, sweepOne active d sub0 w = Ok d1 w1) as (d1 & w1 & Hstep).
      { unfold sweepOne. case_decide as Hact; [by eexists _, _|].
        rewrite closeConsumerGroup_unfold.
        destruct (ConsumerGroup sub0); [|by eexists _, _].
        rewrite decide_False.
        - simpl. destruct (CloseGroup _ _); by eexists _, _.
        - eapply Hopen; [| |done]; [set_solver|].
          by rewrite <- (Hkeyed _ _ Hlk). }
      munfold. rewrite Hstep.
      destruct (sweepOne_registry _ _ _ _ _ _ _ Hkeyed Hlk Hstep)
        as (Hkeyed1 & Hne & _ & Hsub & _).
      destruct (sweepOne_world _ _ _ _ _ _ _ Hkeyed Hlk Hstep)
        as (head & _ & _ & Hcl1 & _).
      apply IH; try done.
      * intros k1 k2 sub1 sub2 H1%Hsub H2%Hsub. by apply Hdist.
      * intros k1 sub1 Hk1 Hina Hs1%Hsub. rewrite Hcl1.
        intros [Hc|(_ & _ & Heq)].
        -- eapply Hopen; [| |done..]; [set_solver|done].
        -- pose proof (Hdist _ _ _ _ Hlk Hs1 Heq). set_solver.
    + apply IH; try done. intros. eapply Hopen; [|done..]. set_solver.
Qed.


(** ** Runs of [UpdateSubscriptions] *)

Lemma rangeOrder_keys (m : gmap string SubscriberWrapper) choose :
  let keys := rangeOrder (length (map_to_list m).*1) choose
                (map_to_list m).*1 in
  NoDup keys ∧ (∀ k, k ∈ keys ↔ is_Some (m !! k)).
Proof.
  simpl. pose proof (rangeOrder_perm choose ((map_to_list m).*1)) as Hp.
  split.
  - rewrite Hp. apply NoDup_fst_map_to_list.
  - intros k. rewrite Hp. rewrite list_elem_of_fmap. split.
    + intros [[k' x] [-> Hin]]. apply elem_of_map_to_list in Hin. eauto.
    + intros [x Hx]. exists (k, x). split; [done|].
      by apply elem_of_map_to_list.
Qed.

Lemma updateAll_keyed config specs d act fl w d' act' fl' w' :
  keyed (subscribers d) →
  updateAll config (d, act, fl) specs w = Ok (d', act', fl') w' →
  keyed (subscribers d').
Proof.
  intros Hkeyed Hrun k sub Hk.
  apply updateAll_registry in Hrun as (Hmono & _ & _ & Hnew & _).
  destruct (subscribers d !! k) as [sub0|] eqn:Hlk.
  - pose proof (Hmono _ _ Hlk). simplify_eq. by apply Hkeyed in Hlk.
  - by apply Hnew in Hk as (_ & ? & _).
Qed.

Lemma updateAll_registered config specs d act fl w :
  (∀ s, s ∈ specs → is_Some (subscribers d !! UID s)) →
  updateAll config (d, act, fl) specs w = Ok (d, uids specs ∪ act, fl) w.
Proof.
  revert act. induction specs as [|s specs IH]; intros act Hreg.
  - simpl. munfold. do 2 f_equal. f_equal. set_solver.
  - rewrite updateAll_cons. munfold. rewrite updateOne_unfold.
    destruct (Hreg s) as [sub ->]; [set_solver|].
    rewrite IH by (intros; apply Hreg; set_solver).
    do 2 f_equal. f_equal. rewrite uids_cons. set_solver.
Qed.

Lemma sweepOne_active active d sub w :
  UID (Spec sub) ∈ active →
  sweepOne active d sub w
  = Ok (withConfig d
          (setSubscriberSpecs (dispatcherConfig d)
             (SubscriberSpecs (dispatcherConfig d) ++ [Spec sub]))) w.
Proof. intros. unfold sweepOne. by rewrite decide_True. Qed.

(** With every registration active, the sweep closes nothing. *)
Lemma sweep_all_active active keys d w :
  (∀ k sub, subscribers d !! k = Some sub → UID (Spec sub) ∈ active) →
  ∃ d', forRange (sweepOne active) keys d w = Ok d' w
        ∧ subscribers d' = subscribers d
        ∧ consumerUpdateLock d' = consumerUpdateLock d.
Proof.
  revert d. induction keys as [|k keys IH]; intros d Hact.
  - by exists d.
  - simpl. destruct (subscribers d !! k) as [sub|] eqn:Hlk; [|by apply IH].
    munfold. rewrite sweepOne_active by by eapply Hact.
    match goal with |- context [forRange _ keys ?d1 w] =>
      destruct (IH d1) as (d' & Hrun & Hs & Hl); [done|] end.
    exists d'. by rewrite Hrun.
Qed.

Lemma updateAll_all_created config specs d act fl w d' act' fl' w' :
  (∀ tr b c g, cgErr (CreateConsumerGroup tr b c g) = None) →
  updateAll config (d, act, fl) specs w = Ok (d', act', fl') w' →
  fl' = fl ∧ ∀ s, s ∈ specs → is_Some (subscribers d' !! UID s).
Proof.
  intros Hok. revert d act fl w.
  induction specs as [|s specs IH]; intros d act fl w Hrun.
  - simpl in Hrun. munfold. simplify_eq. split; [done|]. set_solver.
  - rewrite updateAll_cons in Hrun.
    apply bind_Ok in Hrun as ([[d1 a1] f1] & w1 & Hstep & Hrun).
    pose proof (updateAll_registry _ _ _ _ _ _ _ _ _ _ Hrun) as (Hmono & _).
    apply IH in Hrun as [-> Hall].
    assert (f1 = fl ∧ is_Some (subscribers d1 !! UID s)) as [-> [sub Hs]].
    { rewrite updateOne_unfold in Hstep.
      destruct (subscribers d !! UID s) eqn:Hlk; [by simplify_eq|].
      simpl in Hstep. rewrite Hok in Hstep. simplify_eq. simpl.
      rewrite lookup_insert_eq. eauto. }
    split; [done|]. intros s' [->|Hs']%elem_of_cons; [|by apply Hall].
    eexists. by apply Hmono.
Qed.

(** The first loop when the factory refuses exactly the group of the
    subscriber [uidB], with error [E]. *)
Lemma updateAll_one_failure config uidB E specs d act fl w d' act' fl' w' :
  (∀ tr b c, cgErr (CreateConsumerGroup tr b c ("kafka." +:+ uidB)) = Some E) →
  (∀ tr b c g, g ≠ "kafka." +:+ uidB →
               cgErr (CreateConsumerGroup tr b c g) = None) →
  subscribers d !! uidB = None →
  updateAll config (d, act, fl) specs w = Ok (d', act', fl') w' →
  subscribers d' !! uidB = None
  ∧ (∀ s, s ∈ specs → UID s ≠ uidB → is_Some (subscribers d' !! UID s))
  ∧ fl' = foldl (λ m s, if decide (UID s = uidB) then <[s := E]> m else m)
            fl specs.
Proof.
  intros Hfail Hok. revert d act fl w.
  induction specs as [|s specs IH]; intros d act fl w HB Hrun.
  - simpl in Hrun. munfold. simplify_eq. split; [done|]. split; [|done].
    set_solver.
  - rewrite updateAll_cons in Hrun.
    apply bind_Ok in Hrun as ([[d1 a1] f1] & w1 & Hstep & Hrun).
    pose proof (updateAll_registry _ _ _ _ _ _ _ _ _ _ Hrun) as (Hmono & _).
    assert (subscribers d1 !! uidB = None
            ∧ (UID s ≠ uidB → is_Some (subscribers d1 !! UID s))
            ∧ f1 = if decide (UID s = uidB) then <[s := E]> fl else fl)
      as (HB1 & Hs1 & ->).
    { rewrite updateOne_unfold in Hstep.
      destruct (subscribers d !! UID s) eqn:Hlk.
      - simplify_eq. rewrite Hlk. repeat split; [done|by eauto|].
        rewrite decide_False; [done|]. intros <-. congruence.
      - simpl in Hstep. destruct (decide (UID s = uidB)) as [Heq|Hne].
        + rewrite Heq, Hfail in Hstep. by simplify_eq.
        + rewrite Hok in Hstep.
          2: { intros Hg. by apply (inj (String.append "kafka.")) in Hg. }
          simplify_eq. simpl. rewrite lookup_insert_ne by done.
          rewrite lookup_insert_eq. eauto. }
    apply (IH _ _ _ _ HB1) in Hrun as (HB' & Hall & ->).
    split; [done|]. split; [|done].
    intros s' [->|Hs']%elem_of_cons Hne; [|by apply Hall].
    destruct (Hs1 Hne) as [sub Hsub]. eexists. by apply Hmono.
Qed.

Lemma foldl_failed_other uidB E (specs : list SubscriberSpec)
  (fl : gmap SubscriberSpec Error) :
  uidB ∉ uids specs →
  foldl (λ m s, if decide (UID s = uidB) then <[s := E]> m else m) fl specs
  = fl.
Proof.
  revert fl. induction specs as [|s specs IH]; intros fl Hn; [done|].
  rewrite uids_cons in Hn. simpl. rewrite decide_False by set_solver.
  apply IH. set_solver.
Qed.

Lemma NoDup_omap_keptSpec active m (keys : list string) :
  keyed m → NoDup keys → NoDup (omap (keptSpec active m) keys).
Proof.
  intros Hkeyed. induction keys as [|k keys IH]; intros Hnd; [constructor|].
  apply NoDup_cons in Hnd as [Hk Hnd].
  change (k :: keys) with ([k] ++ keys). rewrite omap_app.
  apply NoDup_app. split; [|split; [|by apply IH]].
  - simpl. destruct (keptSpec active m k); [apply NoDup_singleton|constructor].
  - intros spec Hin Hin'. simpl in Hin.
    destruct (keptSpec active m k) as [spec0|] eqn:Hkept;
      [|by apply elem_of_nil in Hin].
    apply list_elem_of_singleton in Hin as ->.
    apply list_elem_of_omap in Hin' as (k' & Hk' & Hkept').
    unfold keptSpec in Hkept, Hkept'.
    destruct (m !! k) as [sub|] eqn:H1; [|done].
    destruct (m !! k') as [sub'|] eqn:H2; [|done].
    repeat case_decide; simplify_eq.
    apply Hkeyed in H1, H2. congruence.
Qed.

(** The specs [UpdateSubscriptions] retains: those of the registrations
    that are in the registry under a UID of the specified subscribers. *)
Lemma UpdateSubscriptions_retained d0 specs w0 d failed w :
  keyed (subscribers d0) →
  UpdateSubscriptions d0 specs w0 = Ok (d, Some failed) w →
  keyed (subscribers d)
  ∧ NoDup (SubscriberSpecs (dispatcherConfig d))
  ∧ (∀ spec, spec ∈ SubscriberSpecs (dispatcherConfig d) ↔
       (∃ sub, subscribers d !! UID spec = Some sub ∧ Spec sub = spec)
       ∧ UID spec ∈ uids specs).
Proof.
  intros Hkeyed Hrun. apply UpdateSubscriptions_Ok in Hrun.
  destruct (SaramaConfig _) as [config|]; [|by destruct Hrun as (_ & ? & _)].
  destruct Hrun as (Hlock & d2 & act & fl & w2 & d4 & Hloop & Hsweep & -> & _).
  assert (Hkeyed2 : keyed (subscribers d2)).
  { eapply updateAll_keyed; [|exact Hloop]. done. }
  apply updateAll_registry in Hloop as (_ & _ & Hact & _).
  destruct (rangeOrder_keys (subscribers d2) (pick (rangeCount w2)))
    as [Hnd Hkeys].
  apply sweep_registry in Hsweep as (Hkeyed4 & Hsame & Hsub & Hspecs & _);
    [|done..].
  simpl in *. rewrite Hspecs. simpl. split; [done|].
  split; [by apply NoDup_omap_keptSpec|].
  intros spec. rewrite list_elem_of_omap. unfold keptSpec. split.
  - intros (k & Hk & Hkept).
    destruct (subscribers d2 !! k) as [sub|] eqn:Hlk; [|done].
    case_decide as Ha; [|done]. simplify_eq.
    rewrite (Hkeyed2 _ _ Hlk). split.
    + exists sub. by rewrite Hsame by auto.
    + apply Hact in Ha as [?|[? _]]; [set_solver|done].
  - intros [(sub & Hs & <-) Hin]. exists (UID (Spec sub)).
    apply Hsub in Hs. split; [apply Hkeys; eauto|].
    rewrite Hs. rewrite decide_True; [done|].
    apply Hact. right. eauto.
Qed.


Lemma UpdateSubscriptions_run d specs w config d2 act fl w2 d4 w4 :
  SaramaConfig (dispatcherConfig d) = Some config →
  consumerUpdateLock d = false →
  updateAll config (withLock d true, ∅, ∅) specs w = Ok (d2, act, fl) w2 →
  forRange (sweepOne act)
    (rangeOrder (length (map_to_list (subscribers d2)).*1)
       (pick (rangeCount w2)) (map_to_list (subscribers d2)).*1)
    (withConfig d2 (setSubscriberSpecs (dispatcherConfig d2) []))
    (mkWorld (trace w2) (closedChans w2) (nextChan w2) (S (rangeCount w2)))
  = Ok d4 w4 →
  UpdateSubscriptions d specs w = Ok (withLock d4 false, Some fl) w4.
Proof.
  intros Hc Hl Hloop Hsweep. unfold UpdateSubscriptions. rewrite Hc.
  unfold Lock, Unlock, rangeKeys. munfold. rewrite Hl, Hloop. simpl.
  by rewrite Hsweep.
Qed.

(** Every specified subscriber ends the first loop registered or in the
    failure map, and the failure map never loses an entry. *)
Lemma updateAll_progress config specs d act fl w d' act' fl' w' :
  updateAll config (d, act, fl) specs w = Ok (d', act', fl') w' →
  (∀ s, is_Some (fl !! s) → is_Some (fl' !! s))
  ∧ (∀ s, s ∈ specs →
       is_Some (subscribers d' !! UID s) ∨ is_Some (fl' !! s)).
Proof.
  revert d act fl w. induction specs as [|s specs IH]; intros d act fl w Hrun.
  - simpl in Hrun. munfold. simplify_eq. split; [done|]. set_solver.
  - rewrite updateAll_cons in Hrun.
    apply bind_Ok in Hrun as ([[d1 a1] f1] & w1 & Hstep & Hrun).
    pose proof (updateAll_registry _ _ _ _ _ _ _ _ _ _ Hrun) as (Hmono & _).
    apply IH in Hrun as [Hkeep Hall].
    assert ((∀ s', is_Some (fl !! s') → is_Some (f1 !! s'))
            ∧ (is_Some (subscribers d1 !! UID s) ∨ is_Some (f1 !! s)))
      as [Hk1 Hs1].
    { rewrite updateOne_unfold in Hstep.
      destruct (subscribers d !! UID s) eqn:Hlk; [by simplify_eq; eauto|].
      simpl in Hstep. destruct (cgErr _); simplify_eq; simpl.
      - split; [|right; by rewrite lookup_insert_eq].
        intros s' Hs'. rewrite lookup_insert.
        case_decide; [by eauto|done].
      - split; [done|]. left. rewrite lookup_insert_eq. eauto. }
    split; [by auto|].
    intros s' [->|Hs']%elem_of_cons; [|by apply Hall].
    destruct Hs1 as [[sub Hsub]|?]; [left; eexists; by apply Hmono|].
    right. auto.
Qed.


(** ** [ConfigChanged] *)

Lemma ConfigChanged_unfold d cm w :
  ConfigChanged d cm w =
  match MergeSaramaSettings None cm with
  | inr _ => Ok (d, None) w
  | inl merged =>
      if match SaramaConfig (dispatcherConfig d) with
         | Some current => ConfigEqual (newConfigOf d merged) current
         | None => false
         end
      then Ok (d, None) w
      else rebuild d (newConfigOf d merged)
             (SubscriberSpecs (dispatcherConfig d)) w
  end.
Proof.
  unfold ConfigChanged, newConfigOf, rebuild.
  destruct (MergeSaramaSettings None cm) as [merged|]; [|done].
  match goal with |- (if ?b then _ else _) _ = _ => destruct b end; [done|].
  munfold. destruct (Shutdown d w) as [d1 w1| | |] eqn:Hs; try done.
  apply Shutdown_frame in Hs as [Hc _]. simpl. rewrite Hc.
  match goal with |- context [UpdateSubscriptions ?a ?b ?c] =>
    destruct (UpdateSubscriptions a b c) as [[nd fl] w2| | |] end; done.
Qed.

Lemma newConfigOf_credentials d current merged :
  SaramaConfig (dispatcherConfig d) = Some current →
  credentials (newConfigOf d merged) = credentials current.
Proof. intros H. unfold newConfigOf. by rewrite H. Qed.

Lemma rebuild_Ok d newConfig specs w d' r w' :
  rebuild d newConfig specs w = Ok (d', r) w' →
  ∃ d1 w1 nd,
    Shutdown d w = Ok d1 w1
    ∧ d' = withConfig d1 (setSaramaConfig (dispatcherConfig d1) (Some newConfig))
    ∧ r = Some nd
    ∧ SaramaConfig (dispatcherConfig nd) = Some newConfig
    ∧ ∃ fl, UpdateSubscriptions (NewDispatcher (dispatcherConfig d')) specs w1
            = Ok (nd, fl) w' ∧ len fl = 0.
Proof.
  unfold rebuild. intros Hrun.
  apply bind_Ok in Hrun as (d1 & w1 & Hs & Hrun).
  apply bind_Ok in Hrun as ([nd fl] & w2 & Hu & Hrun). simpl in Hrun.
  case_decide; [done|]. munfold. simplify_eq.
  exists d1, w1, nd. repeat split; try done.
  - apply UpdateSubscriptions_frame in Hu as [Hc _].
    by apply (f_equal SaramaConfig) in Hc.
  - exists fl. split; [done|lia].
Qed.


(** ** The mutex and the writes to the registry *)

Lemma updateAll_writes config specs d act fl w d' act' fl' w' :
  updateAll config (d, act, fl) specs w = Ok (d', act', fl') w' →
  ∃ delta, trace w' = trace w ++ delta
           ∧ Forall (writeUnder (consumerUpdateLock d)) delta.
Proof.
  intros Hrun.
  eapply (updateAll_inv config
    (λ st1 w1, consumerUpdateLock st1.1.1 = consumerUpdateLock d
               ∧ ∃ delta, trace w1 = trace w ++ delta
                          ∧ Forall (writeUnder (consumerUpdateLock d)) delta))
    in Hrun.
  - by destruct Hrun as [_ ?].
  - intros [[d1 a1] f1] s w1 st2 w2 _ (Hl & delta & Htr & Hall) Hstep.
    simpl in Hl. rewrite updateOne_unfold in Hstep.
    destruct (subscribers d1 !! UID s); [simplify_eq; eauto|].
    simpl in Hstep. destruct (cgErr _); simplify_eq; simpl.
    + split; [done|]. eexists. rewrite Htr, <- app_assoc. split; [done|].
      apply Forall_app. split; [done|]. by repeat constructor.
    + split; [done|]. eexists. rewrite Htr, <- app_assoc. split; [done|].
      apply Forall_app. split; [done|]. constructor; [done|].
      apply Forall_app. split.
      * unfold startEvents. simpl. destruct (cgHandle _); by repeat constructor.
      * by repeat constructor.
  - simpl. split; [done|]. exists []. by rewrite app_nil_r.
Qed.

Lemma sweep_writes active keys d w d' w' :
  forRange (sweepOne active) keys d w = Ok d' w' →
  ∃ delta, trace w' = trace w ++ delta
           ∧ Forall (writeUnder (consumerUpdateLock d)) delta.
Proof.
  intros Hrun.
  eapply (forRange_inv
    (λ d1 w1, consumerUpdateLock d1 = consumerUpdateLock d
              ∧ ∃ delta, trace w1 = trace w ++ delta
                         ∧ Forall (writeUnder (consumerUpdateLock d)) delta))
    in Hrun.
  - by destruct Hrun as [_ ?].
  - intros d1 k sub w1 d2 w2 _ _ (Hl & delta & Htr & Hall) Hstep.
    apply sweepOne_cases in Hstep as (Hl2 & _ & _ & Hcases).
    split; [congruence|].
    destruct Hcases as [(_ & _ & _ & ->)
      |(_ & _ & [(_ & _ & _ & Htr2)|(h & err & _ & _ & _ & Htr2 & _)])].
    + eauto.
    + eexists. rewrite Htr2, Htr, <- app_assoc. split; [done|].
      apply Forall_app. split; [done|]. by repeat constructor.
    + eexists. rewrite Htr2, Htr, <- app_assoc. split; [done|].
      apply Forall_app. split; [done|].
      destruct err; by repeat constructor.
  - split; [done|]. exists []. by rewrite app_nil_r.
Qed.

(** [UpdateSubscriptions] writes to the registry with the mutex held. *)
Lemma UpdateSubscriptions_writes_locked d specs w d' failed w' :
  UpdateSubscriptions d specs w = Ok (d', failed) w' →
  ∃ delta, trace w' = trace w ++ delta ∧ Forall (writeUnder true) delta.
Proof.
  intros Hrun. apply UpdateSubscriptions_Ok in Hrun.
  destruct (SaramaConfig _) as [config|].
  2: { destruct Hrun as (_ & _ & ->). exists []. by rewrite app_nil_r. }
  destruct Hrun as (_ & d2 & act & fl & w2 & d4 & Hloop & Hsweep & _).
  pose proof (updateAll_frame _ _ _ _ _ _ Hloop) as (_ & Hl2 & _).
  apply updateAll_writes in Hloop as (delta1 & Htr1 & Hall1).
  apply sweep_writes in Hsweep as (delta2 & Htr2 & Hall2).
  simpl in *. rewrite Hl2 in Hall2.
  exists (delta1 ++ delta2). rewrite Htr2, Htr1, app_assoc. split; [done|].
  by apply Forall_app.
Qed.

(** [Shutdown] never takes the mutex: it writes to the registry with the
    mutex in the state in which it found it. *)
Lemma Shutdown_writes_unlocked d w d' w' :
  Shutdown d w = Ok d' w' →
  consumerUpdateLock d' = consumerUpdateLock d
  ∧ ∃ delta, trace w' = trace w ++ delta
             ∧ Forall (writeUnder (consumerUpdateLock d)) delta.
Proof.
  intros Hrun. split; [by apply Shutdown_frame in Hrun as [_ ?]|].
  rewrite Shutdown_as_sweep in Hrun. unfold rangeKeys in Hrun. munfold.
  by apply sweep_writes in Hrun.
Qed.

(** ** Clean dispatchers *)

Lemma NewDispatcher_keyed config : keyed (subscribers (NewDispatcher config)).
Proof. by intros k sub ?. Qed.

Lemma NewDispatcher_empty config k :
  ¬ is_Some (subscribers (NewDispatcher config) !! k).
Proof. by intros [sub ?]. Qed.

Lemma NewDispatcher_clean config w :
  (∀ ch, ch ∈ closedChans w → ch < nextChan w) →
  clean (NewDispatcher config) w.
Proof.
  intros Hcl. split; [done|]. split; [|split; [done|split]].
  - by intros k sub ?.
  - by intros k sub ?.
  - by intros k1 k2 sub1 sub2 ?.
Qed.


(** ** The properties of the specification *)

(** C10.  Without a Sarama configuration [UpdateSubscriptions] returns the
    nil map at once, whatever the subscriber specs: the dispatcher (its
    registry and its retained specs) and the world (no consumer group
    created, no stop channel closed, no consumer group closed) are as
    before.  The nil map has length 0, like the empty map of a full
    success. *)
Theorem UpdateSubscriptions_without_config d specs w :
  SaramaConfig (dispatcherConfig d) = None →
  UpdateSubscriptions d specs w = Ok (d, None) w
  ∧ len None = len (Some ∅).
Proof.
  intros Hnil. unfold UpdateSubscriptions. rewrite Hnil. split; [done|].
  simpl. by rewrite map_size_empty.
Qed.

(** C4.  With a current configuration, an overlay whose merge agrees with
    it on every setting outside the [Producer] section (the credentials
    and the client identifier are put back from the current configuration,
    so they cannot differ) makes [ConfigChanged] return no replacement and
    leave the dispatcher and the world as they are: same registry, same
    registrations, same consumer groups, nothing closed and nothing
    created. *)
Theorem ConfigChanged_producer_only d cm w current merged :
  SaramaConfig (dispatcherConfig d) = Some current →
  MergeSaramaSettings None cm = inl merged →
  Rest merged = Rest current →
  ConfigChanged d cm w = Ok (d, None) w.
Proof.
  intros Hcur Hmerge Hrest. rewrite ConfigChanged_unfold, Hmerge, Hcur.
  unfold newConfigOf, ConfigEqual. rewrite Hcur. simpl.
  by rewrite !bool_decide_eq_true_2.
Qed.

(** C5.  With a current configuration, whatever the overlay: when
    [ConfigChanged] returns, the configuration of the dispatcher it leaves
    behind and of the replacement it returns (if any) carry the client
    identifier, the SASL user and the SASL password of the current
    configuration; and two overlays whose merges differ at most in these
    three fields give the same outcome altogether. *)
Theorem ConfigChanged_keeps_credentials d current w :
  SaramaConfig (dispatcherConfig d) = Some current →
  (∀ cm d' r w', ConfigChanged d cm w = Ok (d', r) w' →
     (∃ c, SaramaConfig (dispatcherConfig d') = Some c
           ∧ credentials c = credentials current)
     ∧ (∀ nd, r = Some nd →
          ∃ c, SaramaConfig (dispatcherConfig nd) = Some c
               ∧ credentials c = credentials current))
  ∧ (∀ cm1 cm2 m1 m2,
       MergeSaramaSettings None cm1 = inl m1 →
       MergeSaramaSettings None cm2 = inl m2 →
       Producer m1 = Producer m2 → Rest m1 = Rest m2 →
       ConfigChanged d cm1 w = ConfigChanged d cm2 w).
Proof.
  intros Hcur. split.
  - intros cm d' r w'. rewrite ConfigChanged_unfold.
    destruct (MergeSaramaSettings None cm) as [merged|].
    + rewrite Hcur. destruct (ConfigEqual _ _).
      * intros ?; simplify_eq. split; [by exists current|done].
      * intros Hrun.
        apply rebuild_Ok in Hrun as (d1 & w1 & nd & _ & -> & -> & Hnd & _).
        pose proof (newConfigOf_credentials d current merged Hcur).
        split; [by eexists|]. intros ? [= <-]. by eexists.
    + intros ?; simplify_eq. split; [by exists current|done].
  - intros cm1 cm2 m1 m2 H1 H2 HP HR.
    rewrite !ConfigChanged_unfold, H1, H2, Hcur.
    assert (newConfigOf d m1 = newConfigOf d m2) as ->; [|done].
    unfold newConfigOf, UpdateSaramaConfig. rewrite Hcur. by rewrite HP, HR.
Qed.

(** One teardown, as [closeConsumerGroup] does it and as the sweep of
    [UpdateSubscriptions] does it for a registration that is not active:
    with a consumer group whose stop channel is still open, the stop
    channel is closed first and the consumer group's [Close] is called
    next; when [Close] fails the registry is left as it is, when it
    succeeds the registration is deleted.  A stop channel that is already
    closed makes the teardown panic before [Close] is called, and a
    registration without consumer group is deleted without any signal. *)
Lemma closeConsumerGroup_step d sub w :
  (∀ active, UID (Spec sub) ∉ active →
     sweepOne active d sub w = closeConsumerGroup d sub w)
  ∧ match ConsumerGroup sub with
    | None =>
        ∃ w', closeConsumerGroup d sub w
              = Ok (withSubscribers d
                      (delete (UID (Spec sub)) (subscribers d))) w'
              ∧ closedChans w' = closedChans w
              ∧ trace w' = trace w
                  ++ [EvRegistryDelete (UID (Spec sub)) (consumerUpdateLock d)]
    | Some h =>
        if decide (StopChan sub ∈ closedChans w)
        then closeConsumerGroup d sub w = Panic "close of closed channel" w
        else
          ∃ d' w' rest,
            let err := CloseGroup (trace w ++ [EvCloseStopChan sub]) h in
            closeConsumerGroup d sub w = Ok d' w'
            ∧ trace w' = trace w ++ EvCloseStopChan sub
                           :: EvCloseConsumerGroup sub err :: rest
            ∧ StopChan sub ∈ closedChans w'
            ∧ (is_Some err → d' = d ∧ rest = [])
            ∧ (err = None →
                 subscribers d' = delete (UID (Spec sub)) (subscribers d)
                 ∧ rest = [EvRegistryDelete (UID (Spec sub))
                             (consumerUpdateLock d)])
    end.
Proof.
  split; [intros; by apply sweepOne_inactive|].
  rewrite closeConsumerGroup_unfold.
  destruct (ConsumerGroup sub) as [h|]; [|by eexists].
  case_decide; [done|]. simpl.
  destruct (CloseGroup _ h) as [e|] eqn:He.
  - eexists _, _, []. simpl. repeat split; try done. set_solver.
  - eexists _, _, _. simpl. repeat split; try done; try set_solver.
    all: by intros [? ?].
Qed.

(** C3.  In the rebuild of [ConfigChanged], a failure map that is not
    empty (one failed subscription is enough) ends the process through the
    logger's [Fatal]; nothing is returned.  This is the only way into
    [Fatal]: [ConfigChanged] only gets there with such a failure map, and
    [UpdateSubscriptions] and [Shutdown] never do. *)
Theorem ConfigChanged_fatal d cm w :
  (∀ merged d1 w1 nd failed w2,
     MergeSaramaSettings None cm = inl merged →
     (∀ current, SaramaConfig (dispatcherConfig d) = Some current →
                 ConfigEqual (newConfigOf d merged) current = false) →
     Shutdown d w = Ok d1 w1 →
     UpdateSubscriptions
       (NewDispatcher (setSaramaConfig (dispatcherConfig d1)
                         (Some (newConfigOf d merged))))
       (SubscriberSpecs (dispatcherConfig d)) w1 = Ok (nd, Some failed) w2 →
     failed ≠ ∅ →
     ConfigChanged d cm w
     = Fatal "Failed To Subscribe Kafka Subscriptions For New Dispatcher"
         (size failed) w2)
  ∧ (∀ msg n w', ConfigChanged d cm w = Fatal msg n w' →
       ∃ merged d1 w1 nd failed,
         MergeSaramaSettings None cm = inl merged
         ∧ Shutdown d w = Ok d1 w1
         ∧ UpdateSubscriptions
             (NewDispatcher (setSaramaConfig (dispatcherConfig d1)
                               (Some (newConfigOf d merged))))
             (SubscriberSpecs (dispatcherConfig d)) w1
           = Ok (nd, Some failed) w'
         ∧ failed ≠ ∅ ∧ n = size failed)
  ∧ (∀ specs msg n w', UpdateSubscriptions d specs w ≠ Fatal msg n w')
  ∧ (∀ msg n w', Shutdown d w ≠ Fatal msg n w').
Proof.
  split; [|split; [|split]].
  - intros merged d1 w1 nd failed w2 Hmerge Hdiff Hs Hu Hne.
    rewrite ConfigChanged_unfold, Hmerge.
    assert (match SaramaConfig (dispatcherConfig d) with
            | Some current => ConfigEqual (newConfigOf d merged) current
            | None => false
            end = false) as ->.
    { destruct (SaramaConfig _); [by apply Hdiff|done]. }
    unfold rebuild. munfold. rewrite Hs. simpl. rewrite Hu. simpl.
    apply map_size_non_empty_iff in Hne.
    case_decide; [done|lia].
  - intros msg n w'. rewrite ConfigChanged_unfold.
    destruct (MergeSaramaSettings None cm) as [merged|]; [|done].
    match goal with |- (if ?b then _ else _) = _ → _ => destruct b end;
      [done|].
    unfold rebuild. munfold.
    destruct (Shutdown d w) as [d1 w1| |msg1 n1 w1|] eqn:Hs; try done.
    2: { by apply Shutdown_not_Fatal in Hs. }
    simpl.
    match goal with |- context [UpdateSubscriptions ?a ?b ?c] =>
      destruct (UpdateSubscriptions a b c) as [[nd fl] w2| | |] eqn:Hu end;
      try done.
    2: { by apply UpdateSubscriptions_not_Fatal in Hu. }
    simpl. case_decide as Hlen; [|done]. unfold logFatal. intros [= <- <- <-].
    destruct fl as [failed|]; [|simpl in Hlen; lia].
    exists merged, d1, w1, nd, failed. repeat split; try done.
    simpl in Hlen. apply map_size_non_empty_iff. lia.
  - intros. apply UpdateSubscriptions_not_Fatal.
  - intros. apply Shutdown_not_Fatal.
Qed.


(** C2.  With a current configuration and an overlay whose merge differs
    from it in a setting outside the [Producer] section, [ConfigChanged]
    is the rebuild: [Shutdown] of the receiver, [NewDispatcher] with the
    merged configuration, [UpdateSubscriptions] on the new dispatcher with
    the specs the receiver retained, and a replacement that is returned
    holds the merged configuration.  The retained specs, after any
    [UpdateSubscriptions] that ran with a configuration, are without
    duplicates and are exactly the specs of the registrations that are in
    the registry under a UID of that call's subscribers: what was created
    or kept then, as it is registered, not the specs that were passed and
    not what failed or was removed. *)
Theorem ConfigChanged_rebuilds_retained d cm w current merged :
  SaramaConfig (dispatcherConfig d) = Some current →
  MergeSaramaSettings None cm = inl merged →
  ConfigEqual (newConfigOf d merged) current = false →
  ConfigChanged d cm w
  = rebuild d (newConfigOf d merged) (SubscriberSpecs (dispatcherConfig d)) w
  ∧ (∀ d' nd w', ConfigChanged d cm w = Ok (d', Some nd) w' →
       SaramaConfig (dispatcherConfig nd) = Some (newConfigOf d merged))
  ∧ (∀ d0 specs w0 failed,
       keyed (subscribers d0) →
       UpdateSubscriptions d0 specs w0 = Ok (d, Some failed) w →
       NoDup (SubscriberSpecs (dispatcherConfig d))
       ∧ ∀ spec, spec ∈ SubscriberSpecs (dispatcherConfig d) ↔
           (∃ sub, subscribers d !! UID spec = Some sub ∧ Spec sub = spec)
           ∧ UID spec ∈ uids specs).
Proof.
  intros Hcur Hmerge Hdiff.
  assert (Heq : ConfigChanged d cm w
                = rebuild d (newConfigOf d merged)
                    (SubscriberSpecs (dispatcherConfig d)) w).
  { by rewrite ConfigChanged_unfold, Hmerge, Hcur, Hdiff. }
  split; [done|]. split.
  - intros d' nd w'. rewrite Heq. intros Hrun.
    by apply rebuild_Ok in Hrun as (? & ? & ? & _ & _ & [= <-] & ? & _).
  - intros d0 specs w0 failed Hkeyed Hrun.
    by apply UpdateSubscriptions_retained in Hrun as (_ & ? & ?).
Qed.

(** C6.  The factory always succeeds, and a first
    [UpdateSubscriptions] with the specs returns and leaves no
    registration outside them in the registry.  Then its failure map is
    empty, and the same call again returns an empty failure map too,
    without any event (no consumer group is created, nothing is closed)
    and without a change to the registry. *)
Theorem UpdateSubscriptions_idempotent d specs w d1 failed1 w1 :
  (∀ tr b c g, cgErr (CreateConsumerGroup tr b c g) = None) →
  keyed (subscribers d) →
  UpdateSubscriptions d specs w = Ok (d1, failed1) w1 →
  (∀ k, is_Some (subscribers d1 !! k) → k ∈ uids specs) →
  len failed1 = 0
  ∧ ∃ d2 failed2 w2,
      UpdateSubscriptions d1 specs w1 = Ok (d2, failed2) w2
      ∧ len failed2 = 0
      ∧ trace w2 = trace w1
      ∧ closedChans w2 = closedChans w1
      ∧ nextChan w2 = nextChan w1
      ∧ subscribers d2 = subscribers d1.
Proof.
  intros Hok Hkeyed Hrun Hin.
  pose proof (UpdateSubscriptions_frame _ _ _ _ _ _ Hrun) as [Hcfg Hlock1].
  apply (f_equal SaramaConfig) in Hcfg. simpl in Hcfg.
  pose proof Hrun as Hrun0. apply UpdateSubscriptions_Ok in Hrun.
  destruct (SaramaConfig (dispatcherConfig d)) as [config|] eqn:Hc.
  2: { destruct Hrun as (-> & -> & ->). split; [done|].
       exists d, None, w. unfold UpdateSubscriptions. by rewrite Hc. }
  destruct Hrun as (Hlock & d2 & act & fl & w2 & d4 & Hloop & Hsweep & Hd1 & ->).
  pose proof (UpdateSubscriptions_retained _ _ _ _ _ _ Hkeyed Hrun0)
    as (Hkeyed1 & _).
  pose proof (updateAll_all_created _ _ _ _ _ _ _ _ _ _ Hok Hloop)
    as [-> Hall].
  pose proof (updateAll_registry _ _ _ _ _ _ _ _ _ _ Hloop)
    as (_ & _ & Hact & _).
  assert (Hkeyed2 : keyed (subscribers d2)).
  { eapply updateAll_keyed; [|exact Hloop]. done. }
  destruct (rangeOrder_keys (subscribers d2) (pick (rangeCount w2)))
    as [Hnd Hkeys].
  apply sweep_registry in Hsweep as (_ & Hsame & _); [|done..].
  simpl in Hsame.
  split; [by simpl; rewrite map_size_empty|].
  assert (Hreg : ∀ s, s ∈ specs →
            is_Some (subscribers (withLock d1 true) !! UID s)).
  { intros s Hs. subst d1. simpl. rewrite Hsame; [by apply Hall|].
    right. apply Hact. right. split; [|by apply Hall].
    apply elem_of_uids. eauto. }
  pose proof (updateAll_registered config specs _ ∅ ∅ w1 Hreg) as Hloop2.
  edestruct (sweep_all_active (uids specs ∪ ∅)
               (rangeOrder (length (map_to_list (subscribers d1)).*1)
                  (pick (rangeCount w1)) (map_to_list (subscribers d1)).*1)
               (withConfig (withLock d1 true)
                  (setSubscriberSpecs (dispatcherConfig d1) []))
               (mkWorld (trace w1) (closedChans w1) (nextChan w1)
                  (S (rangeCount w1)))) as (d5 & Hsweep2 & Hregs & _).
  { simpl. intros k sub Hs. rewrite (Hkeyed1 _ _ Hs).
    apply elem_of_union_l, Hin. eauto. }
  eexists (withLock d5 false), (Some ∅), _. split.
  - eapply UpdateSubscriptions_run; [by rewrite Hcfg|by rewrite Hlock1| |].
    + exact Hloop2.
    + exact Hsweep2.
  - simpl. by rewrite map_size_empty.
Qed.


(** What a first, fully successful [UpdateSubscriptions] of a clean
    dispatcher whose registrations are all specified leaves behind: a
    clean dispatcher again, whose registry holds exactly the specified
    identities. *)
Lemma UpdateSubscriptions_establishes d0 specs w0 d1 w1 :
  clean d0 w0 →
  (∀ k, is_Some (subscribers d0 !! k) → k ∈ uids specs) →
  UpdateSubscriptions d0 specs w0 = Ok (d1, Some ∅) w1 →
  clean d1 w1
  ∧ (∀ k, is_Some (subscribers d1 !! k) ↔ k ∈ uids specs)
  ∧ SaramaConfig (dispatcherConfig d1) = SaramaConfig (dispatcherConfig d0)
  ∧ is_Some (SaramaConfig (dispatcherConfig d1)).
Proof.
  intros [Hlock0 Hclean0] Hin Hrun.
  pose proof (UpdateSubscriptions_frame _ _ _ _ _ _ Hrun) as [Hcfg Hlock1].
  apply (f_equal SaramaConfig) in Hcfg. simpl in Hcfg.
  apply UpdateSubscriptions_Ok in Hrun.
  destruct (SaramaConfig (dispatcherConfig d0)) as [config|] eqn:Hc;
    [|by destruct Hrun as (_ & ? & _)].
  destruct Hrun as (_ & d2 & act & fl & w2 & d4 & Hloop & Hsweep & -> & Hfl).
  simplify_eq.
  assert (Hclean2 : cleanRegistry (subscribers d2) w2).
  { eapply updateAll_clean; [|exact Hloop]. done. }
  pose proof (updateAll_registry _ _ _ _ _ _ _ _ _ _ Hloop)
    as (_ & Hout & Hact & Hnew & _).
  pose proof (updateAll_progress _ _ _ _ _ _ _ _ _ _ Hloop) as [_ Hall].
  assert (Hdom : ∀ k, is_Some (subscribers d2 !! k) ↔ k ∈ uids specs).
  { intros k. split.
    - intros Hk. destruct (decide (k ∈ uids specs)) as [|Hn]; [done|].
      rewrite (Hout _ Hn) in Hk. by apply Hin.
    - intros (s & Hs & <-)%elem_of_uids.
      destruct (Hall _ Hs) as [?|[? Hx]]; [done|].
      by rewrite lookup_empty in Hx. }
  edestruct (sweep_all_active act
               (rangeOrder (length (map_to_list (subscribers d2)).*1)
                  (pick (rangeCount w2)) (map_to_list (subscribers d2)).*1)
               (withConfig d2 (setSubscriberSpecs (dispatcherConfig d2) []))
               (mkWorld (trace w2) (closedChans w2) (nextChan w2)
                  (S (rangeCount w2)))) as (d5 & Hsweep2 & Hregs & _).
  { simpl. intros k sub Hs. destruct Hclean2 as (Hkeyed2 & _).
    rewrite (Hkeyed2 _ _ Hs). apply Hact. right. split; [|by eauto].
    apply Hdom. eauto. }
  rewrite Hsweep2 in Hsweep. simplify_eq. simpl in Hregs.
  split; [|split; [|split]].
  - split; [done|]. simpl. by rewrite Hregs.
  - intros k. simpl. by rewrite Hregs.
  - done.
  - rewrite Hcfg. eauto.
Qed.

(** C7, as the code has it.  A clean dispatcher, whose registrations are
    all among the subscribers S1, ran [UpdateSubscriptions] with S1 and
    got an empty failure map; [UpdateSubscriptions] is called next with
    subscribers S2 whose identities are among those of S1.  Then the call
    returns an empty failure map, and its events are teardown events of
    registrations of S1 outside S2; a registration of S1 outside S2 with a
    consumer group has its stop channel closed, then its consumer group
    closed, and is out of the registry exactly when that close succeeded
    (it stays when the close failed); one without consumer group is just
    deleted; and a registration of S2 is the same as before, with its stop
    channel open. *)
Theorem UpdateSubscriptions_removal d0 S1 w0 d1 w1 S2 :
  clean d0 w0 →
  (∀ k, is_Some (subscribers d0 !! k) → k ∈ uids S1) →
  UpdateSubscriptions d0 S1 w0 = Ok (d1, Some ∅) w1 →
  uids S2 ⊆ uids S1 →
  ∃ d2 w2 delta,
    UpdateSubscriptions d1 S2 w1 = Ok (d2, Some ∅) w2
    ∧ trace w2 = trace w1 ++ delta
    ∧ (∀ e, e ∈ delta →
         ∃ sub, subscribers d1 !! UID (Spec sub) = Some sub
                ∧ UID (Spec sub) ∈ uids S1 ∧ (UID (Spec sub) ∉ uids S2)
                ∧ teardownEvent sub e)
    ∧ (∀ k, k ∈ uids S1 → k ∉ uids S2 →
         ∃ sub, subscribers d1 !! k = Some sub
           ∧ match ConsumerGroup sub with
             | None => subscribers d2 !! k = None
             | Some h =>
                 StopChan sub ∈ closedChans w2
                 ∧ ∃ err l1 l2,
                     delta = l1 ++ EvCloseStopChan sub
                               :: EvCloseConsumerGroup sub err :: l2
                     ∧ subscribers d2 !! k = match err with
                                             | Some _ => Some sub
                                             | None => None
                                             end
             end)
    ∧ (∀ k, k ∈ uids S2 →
         ∃ sub, subscribers d1 !! k = Some sub
                ∧ subscribers d2 !! k = Some sub
                ∧ StopChan sub ∉ closedChans w2).
Proof.
  intros Hclean0 Hin Hrun Hsub.
  destruct (UpdateSubscriptions_establishes _ _ _ _ _ Hclean0 Hin Hrun)
    as ([Hlock1 Hclean1] & Hdom & _ & [config Hc]).
  destruct Hclean1 as (Hkeyed & Hclosed & Hchans & Hdist).
  assert (Hreg : ∀ s, s ∈ S2 →
            is_Some (subscribers (withLock d1 true) !! UID s)).
  { intros s Hs. simpl. apply Hdom, Hsub, elem_of_uids. eauto. }
  pose proof (updateAll_registered config S2 _ ∅ ∅ w1 Hreg) as Hloop.
  set (act := uids S2 ∪ ∅) in *.
  assert (Hact : ∀ k, k ∈ act ↔ k ∈ uids S2) by (intros; set_solver).
  set (keys := rangeOrder (length (map_to_list (subscribers d1)).*1)
                 (pick (rangeCount w1)) (map_to_list (subscribers d1)).*1).
  destruct (rangeOrder_keys (subscribers d1) (pick (rangeCount w1)))
    as [Hnd Hkeys]. fold keys in Hnd, Hkeys.
  set (d3 := withConfig (withLock d1 true)
               (setSubscriberSpecs (dispatcherConfig d1) [])).
  set (w3 := mkWorld (trace w1) (closedChans w1) (nextChan w1)
               (S (rangeCount w1))).
  destruct (sweep_total act keys d3 w3) as (d4 & w4 & Hsweep); try done.
  { intros k sub _ _ Hs. by apply Hchans in Hs as [_ ?]. }
  assert (Hkeyed3 : keyed (subscribers d3)) by done.
  destruct (sweep_registry _ _ _ _ _ _ Hkeyed3 Hnd Hsweep)
    as (_ & Hsame & _).
  destruct (sweep_world _ _ _ _ _ _ Hkeyed3 Hnd Hsweep)
    as (Hcl & delta & Htr & Hev & Hfate).
  exists (withLock d4 false), w4, delta. split; [|split; [|split; [|split]]].
  - eapply UpdateSubscriptions_run; [exact Hc|done|exact Hloop|exact Hsweep].
  - done.
  - intros e He. apply Hev in He as (sub & Hs & ? & Hna & ?). exists sub.
    split; [done|]. split; [apply Hdom; eauto|]. split; [|done].
    by rewrite <- Hact.
  - intros k Hk1 Hk2. destruct (proj2 (Hdom k) Hk1) as [sub Hs].
    exists sub. split; [done|].
    assert (Hna : k ∉ act) by by rewrite Hact.
    assert (Hkk : k ∈ keys) by (apply Hkeys; eauto).
    specialize (Hfate _ _ Hkk Hna Hs). simpl.
    destruct (ConsumerGroup sub) as [h|] eqn:Hh; [|by destruct Hfate].
    destruct Hfate as (err & l1 & l2 & Hd & _ & Hregs).
    split; [|by exists err, l1, l2].
    apply Hcl. right. exists k, sub. rewrite Hh. eauto 10.
  - intros k Hk. destruct (proj2 (Hdom k) (Hsub _ Hk)) as [sub Hs].
    exists sub. split; [done|]. split.
    + simpl. rewrite Hsame; [done|]. right. by apply Hact.
    + rewrite Hcl. intros [Hc0|(k1 & sub1 & _ & Hna & Hs1 & _ & Heq)].
      * by apply Hchans in Hs as [_ ?].
      * pose proof (Hdist _ _ _ _ Hs1 Hs Heq) as ->. by apply Hna, Hact.
Qed.


(** C1, as the code has it.  A clean dispatcher with a configuration gets
    subscribers among which exactly one, B, is refused by the factory
    (with error E; B is not registered and no other subscriber has its
    UID), while every other group is created.  Then [UpdateSubscriptions]
    returns the failure map that holds B with E and nothing else, and the
    registry is: for the specified UIDs, every one but B's, the
    registrations that were there being the same as before and the new
    ones being made from specified specs; for the other UIDs, exactly the
    earlier registrations whose consumer group failed to close in this
    call (they are kept for a later retry). *)
Theorem UpdateSubscriptions_one_failure d w config S1 B S2 E :
  clean d w →
  SaramaConfig (dispatcherConfig d) = Some config →
  subscribers d !! UID B = None →
  UID B ∉ uids S1 → UID B ∉ uids S2 →
  (∀ tr b c, cgErr (CreateConsumerGroup tr b c ("kafka." +:+ UID B)) = Some E) →
  (∀ tr b c g, g ≠ "kafka." +:+ UID B →
               cgErr (CreateConsumerGroup tr b c g) = None) →
  ∃ d' w' delta,
    UpdateSubscriptions d (S1 ++ B :: S2) w = Ok (d', Some {[B := E]}) w'
    ∧ trace w' = trace w ++ delta
    ∧ (∀ k, k ∈ uids (S1 ++ B :: S2) →
         (is_Some (subscribers d' !! k) ↔ k ≠ UID B))
    ∧ (∀ k sub, k ∈ uids (S1 ++ B :: S2) →
         subscribers d !! k = Some sub → subscribers d' !! k = Some sub)
    ∧ (∀ k sub, subscribers d' !! k = Some sub → subscribers d !! k = None →
         Spec sub ∈ S1 ++ B :: S2 ∧ UID (Spec sub) = k
         ∧ GroupId sub = "kafka." +:+ k)
    ∧ (∀ k sub, k ∉ uids (S1 ++ B :: S2) →
         (subscribers d' !! k = Some sub ↔
          subscribers d !! k = Some sub
          ∧ ∃ err, EvCloseConsumerGroup sub (Some err) ∈ delta)).
Proof.
  intros [Hlock Hclean] Hc HB HB1 HB2 Hfail Hok.
  set (specs := S1 ++ B :: S2).
  destruct (updateAll_total config specs (withLock d true, ∅, ∅) w)
    as ([[d2 act] fl] & w2 & Hloop).
  assert (Hclean2 : cleanRegistry (subscribers d2) w2).
  { eapply updateAll_clean; [|exact Hloop]. done. }
  destruct Hclean2 as (Hkeyed2 & Hclosed2 & Hchans2 & Hdist2).
  pose proof (updateAll_registry _ _ _ _ _ _ _ _ _ _ Hloop)
    as (Hmono & Hout & Hact & Hnew & delta1 & Htr1 & Hev1).
  simpl in Hmono, Hout, Hnew.
  destruct (updateAll_one_failure config (UID B) E specs (withLock d true)
              _ _ _ _ _ _ _ Hfail Hok HB Hloop) as (HB' & Hall & Hfl).
  assert (fl = {[B := E]}) as ->.
  { rewrite Hfl. unfold specs. rewrite foldl_app. simpl.
    rewrite (foldl_failed_other _ _ S1) by done.
    rewrite decide_True by done.
    rewrite (foldl_failed_other _ _ S2) by done. apply insert_empty. }
  set (keys := rangeOrder (length (map_to_list (subscribers d2)).*1)
                 (pick (rangeCount w2)) (map_to_list (subscribers d2)).*1).
  destruct (rangeOrder_keys (subscribers d2) (pick (rangeCount w2)))
    as [Hnd Hkeys]. fold keys in Hnd, Hkeys.
  set (d3 := withConfig d2 (setSubscriberSpecs (dispatcherConfig d2) [])).
  set (w3 := mkWorld (trace w2) (closedChans w2) (nextChan w2)
               (S (rangeCount w2))).
  assert (Hkeyed3 : keyed (subscribers d3)) by done.
  destruct (sweep_total act keys d3 w3) as (d4 & w4 & Hsweep); try done.
  { intros k sub _ _ Hs. by apply Hchans2 in Hs as [_ ?]. }
  destruct (sweep_registry _ _ _ _ _ _ Hkeyed3 Hnd Hsweep)
    as (_ & Hsame & Hsub & _).
  destruct (sweep_world _ _ _ _ _ _ Hkeyed3 Hnd Hsweep)
    as (_ & delta2 & Htr2 & _ & Hfate).
  simpl in Hsame, Hsub, Hfate, Htr2.
  assert (Hact' : ∀ k, k ∈ act ↔ k ∈ uids specs ∧ is_Some (subscribers d2 !! k)).
  { intros k. rewrite Hact. set_solver. }
  exists (withLock d4 false), w4, (delta1 ++ delta2).
  split; [|split; [|split; [|split; [|split]]]].
  - eapply UpdateSubscriptions_run; [exact Hc|done|exact Hloop|exact Hsweep].
  - by rewrite Htr2, Htr1, app_assoc.
  - intros k Hk. simpl. split.
    + intros [sub Hs] ->. apply Hsub in Hs. congruence.
    + intros Hne. apply elem_of_uids in Hk as (s & Hs & <-).
      rewrite Hsame; [by apply Hall|]. right. apply Hact'.
      split; [apply elem_of_uids; eauto|by apply Hall].
  - intros k sub Hk Hs. simpl. apply Hmono in Hs.
    rewrite Hsame; [done|]. right. apply Hact'. eauto.
  - intros k sub Hs Hn. simpl in Hs. apply Hsub in Hs. by apply Hnew.
  - intros k sub Hk. simpl.
    assert (Hna : k ∉ act) by (rewrite Hact'; tauto).
    rewrite <- (Hout _ Hk). split.
    + intros Hs. pose proof (Hsub _ _ Hs) as Hs2. split; [done|].
      assert (Hkk : k ∈ keys) by (apply Hkeys; eauto).
      specialize (Hfate _ _ Hkk Hna Hs2).
      destruct (ConsumerGroup sub) as [h|]; [|destruct Hfate; congruence].
      destruct Hfate as (err & l1 & l2 & -> & _ & Hregs).
      rewrite Hs in Hregs. destruct err as [e|]; [|done].
      exists e. set_solver.
    + intros [Hs2 [e [Hin|Hin]%elem_of_app]].
      * rewrite Forall_forall in Hev1. by apply Hev1 in Hin.
      * assert (Hkk : k ∈ keys) by (apply Hkeys; eauto).
        specialize (Hfate _ _ Hkk Hna Hs2).
        destruct (ConsumerGroup sub) as [h|].
        -- destruct Hfate as (err & l1 & l2 & _ & Huniq & Hregs).
           by rewrite <- (Huniq _ Hin) in Hregs.
        -- destruct Hfate as [_ Hno]. by apply Hno in Hin.
Qed.


(** ** More about teardown *)

Lemma sweepOne_outcome active d sub w :
  (∃ d' w', sweepOne active d sub w = Ok d' w')
  ∨ (sweepOne active d sub w = Panic "close of closed channel" w
     ∧ is_Some (ConsumerGroup sub) ∧ StopChan sub ∈ closedChans w
     ∧ UID (Spec sub) ∉ active).
Proof.
  unfold sweepOne. case_decide as Ha; [left; by eexists _, _|].
  rewrite closeConsumerGroup_unfold.
  destruct (ConsumerGroup sub) as [h|]; [|left; by eexists _, _].
  case_decide; [right; by eauto|]. simpl.
  destruct (CloseGroup _ h); left; by eexists _, _.
Qed.

Lemma sweep_close_answers active keys d w d' w' :
  forRange (sweepOne active) keys d w = Ok d' w' →
  ∃ delta, trace w' = trace w ++ delta ∧ Forall closeAnswer delta.
Proof.
  intros Hrun.
  eapply (forRange_inv
    (λ _ w1, ∃ delta, trace w1 = trace w ++ delta ∧ Forall closeAnswer delta))
    in Hrun; [done| |].
  - intros d1 k sub w1 d2 w2 _ _ (delta & Htr & Hall) Hstep.
    unfold sweepOne in Hstep. case_decide; [munfold; simplify_eq; eauto|].
    rewrite closeConsumerGroup_unfold in Hstep.
    destruct (ConsumerGroup sub) as [h|] eqn:Hh.
    + case_decide; [done|]. simpl in Hstep.
      destruct (CloseGroup _ h) eqn:Hc; simplify_eq; simpl;
        eexists; rewrite Htr, <- app_assoc; (split; [done|]);
        apply Forall_app; (split; [done|]); repeat constructor;
        simpl; eexists _, h; by rewrite Hh, Hc.
    + simplify_eq. simpl. eexists. rewrite Htr, <- app_assoc.
      split; [done|]. apply Forall_app. split; [done|]. by repeat constructor.
  - exists []. by rewrite app_nil_r.
Qed.

(** A registration with a consumer group whose stop channel is already
    closed makes the sweep panic when it is not active. *)
Lemma sweep_panics active keys d w k sub :
  keyed (subscribers d) → k ∈ keys → k ∉ active →
  subscribers d !! k = Some sub → is_Some (ConsumerGroup sub) →
  StopChan sub ∈ closedChans w →
  ∃ w', forRange (sweepOne active) keys d w
        = Panic "close of closed channel" w'.
Proof.
  revert d w. induction keys as [|k0 keys IH];
    intros d w Hkeyed Hk Hna Hs Hh Hc; [by apply elem_of_nil in Hk|].
  simpl. destruct (subscribers d !! k0) as [sub0|] eqn:Hlk.
  - munfold. destruct (sweepOne_outcome active d sub0 w)
      as [(d1 & w1 & Hstep)|(Hstep & _)]; rewrite Hstep; [|by eauto].
    destruct (decide (k0 = k)) as [->|Hne].
    + simplify_eq. unfold sweepOne in Hstep.
      rewrite decide_False in Hstep by by rewrite (Hkeyed _ _ Hs).
      rewrite closeConsumerGroup_unfold in Hstep.
      destruct Hh as [h Hh]. rewrite Hh, decide_True in Hstep by done. done.
    + destruct (sweepOne_registry _ _ _ _ _ _ _ Hkeyed Hlk Hstep)
        as (Hkeyed1 & Hother & _).
      destruct (sweepOne_world _ _ _ _ _ _ _ Hkeyed Hlk Hstep)
        as (_ & _ & _ & Hcl & _).
      apply IH; try done.
      * set_solver.
      * by rewrite Hother.
      * apply Hcl. by left.
  - apply IH; try done. apply elem_of_cons in Hk as [->|?]; [congruence|done].
Qed.

Lemma Shutdown_clean_registry d w :
  cleanRegistry (subscribers d) w →
  (∀ tr h, CloseGroup tr h = None) →
  ∃ d' w' delta,
    Shutdown d w = Ok d' w'
    ∧ subscribers d' = ∅
    ∧ dispatcherConfig d' = dispatcherConfig d
    ∧ trace w' = trace w ++ delta
    ∧ (∀ k sub, subscribers d !! k = Some sub → is_Some (ConsumerGroup sub) →
         StopChan sub ∈ closedChans w'
         ∧ ∃ l1 l2, delta = l1 ++ EvCloseStopChan sub
                              :: EvCloseConsumerGroup sub None :: l2)
    ∧ (∀ ch, ch ∈ closedChans w' →
         ch < nextChan w'
         ∧ (ch ∈ closedChans w
            ∨ ∃ k sub, subscribers d !! k = Some sub ∧ StopChan sub = ch)).
Proof.
  intros (Hkeyed & Hclosed & Hchans & Hdist) Hok.
  set (keys := rangeOrder (length (map_to_list (subscribers d)).*1)
                 (pick (rangeCount w)) (map_to_list (subscribers d)).*1).
  destruct (rangeOrder_keys (subscribers d) (pick (rangeCount w)))
    as [Hnd Hkeys]. fold keys in Hnd, Hkeys.
  set (w3 := mkWorld (trace w) (closedChans w) (nextChan w) (S (rangeCount w))).
  destruct (sweep_total ∅ keys d w3) as (d' & w' & Hsweep); try done.
  { intros k sub _ _ Hs. by apply Hchans in Hs as [_ ?]. }
  assert (Hrun : Shutdown d w = Ok d' w').
  { rewrite Shutdown_as_sweep. unfold rangeKeys. munfold. exact Hsweep. }
  destruct (sweep_registry _ _ _ _ _ _ Hkeyed Hnd Hsweep)
    as (_ & _ & Hsub & _ & Hnext & _).
  destruct (sweep_world _ _ _ _ _ _ Hkeyed Hnd Hsweep)
    as (Hcl & delta & Htr & _ & Hfate).
  destruct (sweep_close_answers _ _ _ _ _ _ Hsweep) as (delta' & Htr' & Hans).
  assert (delta' = delta) as ->.
  { rewrite Htr in Htr'. by apply app_inv_head in Htr'. }
  rewrite Forall_forall in Hans.
  assert (Hone : ∀ k sub, subscribers d !! k = Some sub →
            subscribers d' !! k = None
            ∧ (is_Some (ConsumerGroup sub) →
               ∃ l1 l2, delta = l1 ++ EvCloseStopChan sub
                                  :: EvCloseConsumerGroup sub None :: l2)).
  { intros k sub Hs.
    assert (Hk : k ∈ keys) by (apply Hkeys; eauto).
    specialize (Hfate k sub Hk (not_elem_of_empty k) Hs).
    destruct (ConsumerGroup sub) as [h|]; [|by destruct Hfate as [? _]; split; [|intros []]].
    destruct Hfate as (err & l1 & l2 & Hd & _ & Hreg).
    assert (err = None) as ->.
    { assert (Hin : EvCloseConsumerGroup sub err ∈ delta) by (rewrite Hd; set_solver).
      apply Hans in Hin as (tr & h' & _ & ->). apply Hok. }
    split; [done|]. intros _. by exists l1, l2. }
  exists d', w', delta. split; [done|]. split; [|split; [|split; [|split]]].
  - apply map_eq. intros k. rewrite lookup_empty.
    destruct (subscribers d' !! k) as [sub|] eqn:Hs; [|done].
    apply Hsub in Hs as Hs0. apply Hone in Hs0 as [? _]. congruence.
  - by apply Shutdown_frame in Hrun as [? _].
  - done.
  - intros k sub Hs Hh. split; [|by apply (Hone _ _ Hs)].
    apply Hcl. right. exists k, sub. split; [apply Hkeys; eauto|].
    split; [apply not_elem_of_empty|done].
  - intros ch Hch. rewrite Hnext. simpl.
    apply Hcl in Hch as [Hch|(k & sub & _ & _ & Hs & _ & <-)].
    + split; [by apply Hclosed|by left].
    + split; [by apply Hchans in Hs as [? _]|right; eauto].
Qed.

(** X1.  [Shutdown] of a dispatcher whose registry is clean, when every
    close of a consumer group succeeds: the call returns, the registry is
    empty and the configuration is the same; every registration with a
    consumer group had its stop channel closed and then its consumer group
    closed; and the channels that are closed afterwards are those that were
    closed before and stop channels of the registrations. *)
Theorem Shutdown_closes_all d w :
  cleanRegistry (subscribers d) w →
  (∀ tr h, CloseGroup tr h = None) →
  ∃ d' w' delta,
    Shutdown d w = Ok d' w'
    ∧ subscribers d' = ∅
    ∧ dispatcherConfig d' = dispatcherConfig d
    ∧ trace w' = trace w ++ delta
    ∧ (∀ k sub, subscribers d !! k = Some sub → is_Some (ConsumerGroup sub) →
         StopChan sub ∈ closedChans w'
         ∧ ∃ l1 l2, delta = l1 ++ EvCloseStopChan sub
                              :: EvCloseConsumerGroup sub None :: l2)
    ∧ (∀ ch, ch ∈ closedChans w' →
         ch < nextChan w'
         ∧ (ch ∈ closedChans w
            ∨ ∃ k sub, subscribers d !! k = Some sub ∧ StopChan sub = ch)).
Proof. exact (Shutdown_clean_registry d w). Qed.

Lemma closed_StopChan_panics d w k sub :
  keyed (subscribers d) →
  subscribers d !! k = Some sub → is_Some (ConsumerGroup sub) →
  StopChan sub ∈ closedChans w →
  (∃ w', Shutdown d w = Panic "close of closed channel" w')
  ∧ (∀ specs, is_Some (SaramaConfig (dispatcherConfig d)) →
       consumerUpdateLock d = false → k ∉ uids specs →
       ∃ w', UpdateSubscriptions d specs w
             = Panic "close of closed channel" w').
Proof.
  intros Hkeyed Hs Hh Hc. split.
  - rewrite Shutdown_as_sweep. unfold rangeKeys. munfold.
    eapply sweep_panics; try done.
    apply rangeOrder_keys. eauto.
  - intros specs [config Hcfg] Hlock Hk.
    unfold UpdateSubscriptions. rewrite Hcfg. unfold Lock, Unlock, rangeKeys.
    munfold. rewrite Hlock.
    destruct (updateAll_total config specs (withLock d true, ∅, ∅) w)
      as ([[d2 act] fl] & w2 & Hloop). rewrite Hloop. simpl.
    assert (Hkeyed2 : keyed (subscribers d2)).
    { eapply updateAll_keyed; [|exact Hloop]. done. }
    pose proof (updateAll_registry _ _ _ _ _ _ _ _ _ _ Hloop)
      as (Hmono & _ & Hact & _).
    pose proof (updateAll_frame _ _ _ _ _ _ Hloop) as (_ & _ & Hcl & _).
    edestruct (sweep_panics act
                 (rangeOrder (length (map_to_list (subscribers d2)).*1)
                    (pick (rangeCount w2)) (map_to_list (subscribers d2)).*1)
                 (withConfig d2 (setSubscriberSpecs (dispatcherConfig d2) []))
                 (mkWorld (trace w2) (closedChans w2) (nextChan w2)
                    (S (rangeCount w2))) k sub) as (w' & Hp); try done.
    + apply rangeOrder_keys. exists sub. by apply Hmono.
    + rewrite Hact. intros [?|[? _]]; set_solver.
    + simpl. by apply Hmono.
    + simpl. by rewrite Hcl.
    + rewrite Hp. eauto.
Qed.

(** X2.  A registration with a consumer group whose stop channel is
    already closed makes the next teardown panic with "close of closed
    channel": [Shutdown], and the sweep of an [UpdateSubscriptions] that
    does not specify it. *)
Theorem teardown_again_panics d w k sub :
  keyed (subscribers d) →
  subscribers d !! k = Some sub → is_Some (ConsumerGroup sub) →
  StopChan sub ∈ closedChans w →
  (∃ w', Shutdown d w = Panic "close of closed channel" w')
  ∧ (∀ specs, is_Some (SaramaConfig (dispatcherConfig d)) →
       consumerUpdateLock d = false → k ∉ uids specs →
       ∃ w', UpdateSubscriptions d specs w
             = Panic "close of closed channel" w').
Proof. exact (closed_StopChan_panics d w k sub). Qed.


(** ** Invariants of the registry *)

Lemma grouped_keyed m : grouped m → keyed m.
Proof. intros Hg k sub Hs. by apply Hg in Hs as [? _]. Qed.

Lemma NewDispatcher_grouped config : grouped (subscribers (NewDispatcher config)).
Proof. by intros k sub ?. Qed.

Lemma updateAll_grouped config specs d act fl w d' act' fl' w' :
  grouped (subscribers d) →
  updateAll config (d, act, fl) specs w = Ok (d', act', fl') w' →
  grouped (subscribers d').
Proof.
  intros Hg Hrun k sub Hk.
  apply updateAll_registry in Hrun as (Hmono & _ & _ & Hnew & _).
  destruct (subscribers d !! k) as [sub0|] eqn:Hlk.
  - pose proof (Hmono _ _ Hlk). simplify_eq. by apply Hg in Hlk.
  - by apply Hnew in Hk as (_ & ? & ?).
Qed.

Lemma sweep_subset active keys d w d' w' :
  keyed (subscribers d) →
  forRange (sweepOne active) keys d w = Ok d' w' →
  (∀ k sub, subscribers d' !! k = Some sub → subscribers d !! k = Some sub)
  ∧ nextChan w' = nextChan w.
Proof.
  intros Hkeyed Hrun.
  eapply (forRange_inv
    (λ d1 w1, keyed (subscribers d1)
              ∧ (∀ k sub, subscribers d1 !! k = Some sub →
                          subscribers d !! k = Some sub)
              ∧ nextChan w1 = nextChan w)) in Hrun.
  - by destruct Hrun as (_ & ? & ?).
  - intros d1 k sub w1 d2 w2 _ Hlk (Hk1 & Hs1 & Hn1) Hstep.
    destruct (sweepOne_registry _ _ _ _ _ _ _ Hk1 Hlk Hstep)
      as (? & _ & _ & Hs2 & _ & Hn2 & _).
    split; [done|]. split; [by auto|congruence].
  - done.
Qed.

Lemma UpdateSubscriptions_grouped d specs w d' failed w' :
  grouped (subscribers d) →
  UpdateSubscriptions d specs w = Ok (d', failed) w' →
  grouped (subscribers d').
Proof.
  intros Hg Hrun. apply UpdateSubscriptions_Ok in Hrun.
  destruct (SaramaConfig _) as [config|]; [|by destruct Hrun as (-> & _)].
  destruct Hrun as (_ & d2 & act & fl & w2 & d4 & Hloop & Hsweep & -> & _).
  assert (Hg2 : grouped (subscribers d2)).
  { eapply updateAll_grouped; [|exact Hloop]. done. }
  apply sweep_subset in Hsweep as [Hsub _]; [|by apply grouped_keyed].
  intros k sub Hs. simpl in Hs. by apply Hsub, Hg2 in Hs.
Qed.

Lemma Shutdown_grouped d w d' w' :
  grouped (subscribers d) → Shutdown d w = Ok d' w' →
  grouped (subscribers d').
Proof.
  intros Hg Hrun. rewrite Shutdown_as_sweep in Hrun.
  unfold rangeKeys in Hrun. munfold.
  apply sweep_subset in Hrun as [Hsub _]; [|by apply grouped_keyed].
  intros k sub Hs. by apply Hsub, Hg in Hs.
Qed.

(** X4.  Registrations sit under the UID of their spec and carry the group
    identifier made from it ("kafka." and the UID), and this is kept by
    [UpdateSubscriptions], by [Shutdown] and by [ConfigChanged] (for the
    dispatcher left behind and for the replacement); so no two
    registrations share a group identifier. *)
Theorem grouped_invariant d w :
  grouped (subscribers d) →
  (∀ specs d' failed w',
     UpdateSubscriptions d specs w = Ok (d', failed) w' →
     grouped (subscribers d'))
  ∧ (∀ d' w', Shutdown d w = Ok d' w' → grouped (subscribers d'))
  ∧ (∀ cm d' r w',
       ConfigChanged d cm w = Ok (d', r) w' →
       grouped (subscribers d')
       ∧ ∀ nd, r = Some nd → grouped (subscribers nd))
  ∧ (∀ k1 k2 sub1 sub2,
       subscribers d !! k1 = Some sub1 → subscribers d !! k2 = Some sub2 →
       GroupId sub1 = GroupId sub2 → k1 = k2).
Proof.
  intros Hg. split; [|split; [|split]].
  - intros specs d' failed w'. by apply UpdateSubscriptions_grouped.
  - intros d' w'. by apply Shutdown_grouped.
  - intros cm d' r w'. rewrite ConfigChanged_unfold.
    destruct (MergeSaramaSettings None cm) as [merged|];
      [|by intros; simplify_eq].
    match goal with |- (if ?b then _ else _) = _ → _ => destruct b end;
      [by intros; simplify_eq|].
    intros Hrun.
    apply rebuild_Ok in Hrun as (d1 & w1 & nd & Hs & -> & -> & _ & fl & Hu & _).
    split.
    + simpl. by eapply Shutdown_grouped.
    + intros ? [= <-]. eapply UpdateSubscriptions_grouped; [|exact Hu].
      apply NewDispatcher_grouped.
  - intros k1 k2 sub1 sub2 H1 H2 Heq.
    apply Hg in H1 as [_ H1]. apply Hg in H2 as [_ H2].
    rewrite H1, H2 in Heq. by apply (inj (String.append "kafka.")) in Heq.
Qed.

Lemma updateOne_ownChans config d act fl s w d' act' fl' w' :
  ownChans (subscribers d) w →
  updateOne config (d, act, fl) s w = Ok (d', act', fl') w' →
  ownChans (subscribers d') w'.
Proof.
  intros (Hchans & Hdist). rewrite updateOne_unfold.
  destruct (subscribers d !! UID s) eqn:Hlk; [by intros; simplify_eq|].
  simpl. destruct (cgErr _); intros ?; simplify_eq; [done|].
  unfold ownChans. simpl. split.
  - intros k sub [[<- <-]|[_ Hs]]%lookup_insert_Some; simpl; [lia|].
    apply Hchans in Hs. lia.
  - intros k1 k2 sub1 sub2 [[<- <-]|[? H1]]%lookup_insert_Some
      [[<- <-]|[? H2]]%lookup_insert_Some; simpl; try done.
    + apply Hchans in H2. lia.
    + apply Hchans in H1. lia.
    + by eapply Hdist.
Qed.

(** X5.  The stop channels of the registrations stay allocated and
    pairwise different through [UpdateSubscriptions] and [Shutdown]. *)
Theorem ownChans_invariant d w :
  keyed (subscribers d) → ownChans (subscribers d) w →
  (∀ specs d' failed w',
     UpdateSubscriptions d specs w = Ok (d', failed) w' →
     ownChans (subscribers d') w')
  ∧ (∀ d' w', Shutdown d w = Ok d' w' → ownChans (subscribers d') w').
Proof.
  intros Hkeyed Hown.
  assert (Hsweep : ∀ active keys d1 w1 d' w',
            keyed (subscribers d1) → ownChans (subscribers d1) w1 →
            forRange (sweepOne active) keys d1 w1 = Ok d' w' →
            ownChans (subscribers d') w').
  { intros active keys d1 w1 d' w' Hk1 [Hc1 Hd1] Hrun.
    apply sweep_subset in Hrun as [Hsub Hn]; [|done]. split.
    - intros k sub Hs%Hsub. rewrite Hn. by eapply Hc1.
    - intros k1 k2 sub1 sub2 H1%Hsub H2%Hsub. by eapply Hd1. }
  split.
  - intros specs d' failed w' Hrun. apply UpdateSubscriptions_Ok in Hrun.
    destruct (SaramaConfig _) as [config|];
      [|by destruct Hrun as (-> & _ & ->)].
    destruct Hrun as (_ & d2 & act & fl & w2 & d4 & Hloop & Hsw & -> & _).
    assert (Hkeyed2 : keyed (subscribers d2)).
    { eapply updateAll_keyed; [|exact Hloop]. done. }
    assert (Hown2 : ownChans (subscribers d2) w2).
    { eapply (updateAll_inv config
                (λ st w, ownChans (subscribers st.1.1) w)) in Hloop;
        [done| |done].
      intros [[d1 a1] f1] s w1 [[d3 a3] f3] w3 _ H1 H2. simpl in *.
      by eapply updateOne_ownChans. }
    simpl. eapply Hsweep; [| |exact Hsw]; done.
  - intros d' w' Hrun. rewrite Shutdown_as_sweep in Hrun.
    unfold rangeKeys in Hrun. munfold.
    eapply Hsweep; [| |exact Hrun]; done.
Qed.


(** ** What [UpdateSubscriptions] asks of the factory *)

Lemma factoryCall_mono c m1 m2 specs1 specs2 e :
  (∀ k, m1 !! k = None → m2 !! k = None) → specs1 ⊆ specs2 →
  factoryCall c m1 specs1 e → factoryCall c m2 specs2 e.
Proof.
  intros Hm Hs. destruct e; simpl; try done.
  intros (? & ? & spec & ? & ? & ?). repeat split; try done.
  exists spec. split; [by apply Hs|]. split; [done|by apply Hm].
Qed.

Lemma updateAll_calls config specs d act fl w d' act' fl' w' :
  SaramaConfig (dispatcherConfig d) = Some config →
  updateAll config (d, act, fl) specs w = Ok (d', act', fl') w' →
  ∃ delta,
    trace w' = trace w ++ delta
    ∧ Forall (factoryCall (dispatcherConfig d) (subscribers d) specs) delta
    ∧ ∀ spec e, fl' !! spec = Some e →
        fl !! spec = Some e
        ∨ (spec ∈ specs ∧ subscribers d !! UID spec = None
           ∧ ∃ r, EvCreateConsumerGroup (Brokers (dispatcherConfig d)) config
                    ("kafka." +:+ UID spec) r ∈ delta
                  ∧ cgErr r = Some e).
Proof.
  intros Hcfg. revert d act fl w Hcfg.
  induction specs as [|s specs IH]; intros d act fl w Hcfg Hrun.
  - simpl in Hrun. munfold. simplify_eq. exists []. rewrite app_nil_r.
    split; [done|]. split; [constructor|by left].
  - rewrite updateAll_cons in Hrun.
    apply bind_Ok in Hrun as ([[d1 a1] f1] & w1 & Hstep & Hrun).
    pose proof (updateOne_frame _ _ _ _ _ _ Hstep) as (Hc1 & _). simpl in Hc1.
    rewrite <- Hc1 in Hcfg.
    destruct (IH _ _ _ _ Hcfg Hrun) as (delta & Htr & Hcalls & Hfl).
    rewrite Hc1 in *. rewrite updateOne_unfold in Hstep.
    assert (Htail : ∀ m1, (∀ k, m1 !! k = None → subscribers d !! k = None) →
              Forall (factoryCall (dispatcherConfig d) m1 specs) delta →
              Forall (factoryCall (dispatcherConfig d) (subscribers d)
                        (s :: specs)) delta).
    { intros m1 Hm Hall. eapply Forall_impl; [exact Hall|]. intros e.
      apply factoryCall_mono; [done|set_solver]. }
    destruct (subscribers d !! UID s) as [sub0|] eqn:Hlk.
    { simplify_eq. exists delta. split; [done|]. split; [by eapply Htail|].
      intros spec e Hs. apply Hfl in Hs as [?|(? & ? & ?)]; [by left|].
      right. split; [set_solver|done]. }
    simpl in Hstep. destruct (cgErr _) as [e0|] eqn:Herr; simplify_eq.
    + eexists. rewrite Htr. simpl. rewrite <- app_assoc. split; [done|].
      split.
      * apply Forall_app. split; [|by eapply Htail].
        repeat constructor; try done. exists s. set_solver.
      * intros spec e Hs.
        apply Hfl in Hs as [[[<- <-]|[_ ?]]%lookup_insert_Some
                           |(? & ? & r & ? & ?)].
        -- right. split; [set_solver|]. split; [done|].
           eexists. split; [|exact Herr]. set_solver.
        -- by left.
        -- right. split; [set_solver|]. split; [done|].
           exists r. split; [set_solver|done].
    + simpl in *. eexists. rewrite Htr. simpl. rewrite <- app_assoc.
      split; [done|].
      assert (Hm : ∀ k, <[UID s:=mkSubscriberWrapper s ("kafka." +:+ UID s)
                          (cgHandle (CreateConsumerGroup (trace w)
                             (Brokers (dispatcherConfig d)) config
                             ("kafka." +:+ UID s))) (nextChan w)]>
                        (subscribers d) !! k = None →
                      subscribers d !! k = None).
      { intros k [? _]%lookup_insert_None. done. }
      split.
      * apply Forall_app. split; [|by eapply Htail].
        apply Forall_cons. split.
        { repeat split; try done. exists s. set_solver. }
        apply Forall_app. split; [|by repeat constructor].
        unfold startEvents. simpl. destruct (cgHandle _); by repeat constructor.
      * intros spec e Hs. apply Hfl in Hs as [?|(? & ? & r & ? & ?)];
          [by left|].
        right. split; [set_solver|]. split; [by apply Hm|].
        exists r. split; [set_solver|done].
Qed.

Lemma sweep_no_calls active keys d w d' w' c m specs :
  forRange (sweepOne active) keys d w = Ok d' w' →
  ∃ delta, trace w' = trace w ++ delta ∧ Forall (factoryCall c m specs) delta.
Proof.
  intros Hrun.
  eapply (forRange_inv
    (λ _ w1, ∃ delta, trace w1 = trace w ++ delta
                      ∧ Forall (factoryCall c m specs) delta)) in Hrun;
    [done| |].
  - intros d1 k sub w1 d2 w2 _ _ (delta & Htr & Hall) Hstep.
    apply sweepOne_cases in Hstep as (_ & _ & _ & Hcases).
    destruct Hcases as [(_ & _ & _ & ->)
      |(_ & _ & [(_ & _ & _ & Htr2)|(h & err & _ & _ & _ & Htr2 & _)])].
    + eauto.
    + eexists. rewrite Htr2, Htr, <- app_assoc. split; [done|].
      apply Forall_app. split; [done|]. by repeat constructor.
    + eexists. rewrite Htr2, Htr, <- app_assoc. split; [done|].
      apply Forall_app. split; [done|]. destruct err; by repeat constructor.
  - exists []. by rewrite app_nil_r.
Qed.

(** X6.  [UpdateSubscriptions] calls the factory only for specified
    subscribers under whose UID nothing was registered, with the brokers and
    the configuration of the dispatcher and the group identifier made from
    the UID; and every entry of the failure map is a specified spec that was
    not registered, with the error of such a call. *)
Theorem UpdateSubscriptions_factory_calls d specs w d' failed w' :
  UpdateSubscriptions d specs w = Ok (d', Some failed) w' →
  ∃ config delta,
    SaramaConfig (dispatcherConfig d) = Some config
    ∧ trace w' = trace w ++ delta
    ∧ Forall (factoryCall (dispatcherConfig d) (subscribers d) specs) delta
    ∧ ∀ spec e, failed !! spec = Some e →
        spec ∈ specs ∧ subscribers d !! UID spec = None
        ∧ ∃ r, EvCreateConsumerGroup (Brokers (dispatcherConfig d)) config
                 ("kafka." +:+ UID spec) r ∈ delta
               ∧ cgErr r = Some e.
Proof.
  intros Hrun. apply UpdateSubscriptions_Ok in Hrun.
  destruct (SaramaConfig (dispatcherConfig d)) as [config|] eqn:Hcfg;
    [|by destruct Hrun as (_ & ? & _)].
  destruct Hrun as (_ & d2 & act & fl & w2 & d4 & Hloop & Hsweep & _ & Hfl).
  simplify_eq.
  apply updateAll_calls in Hloop as (delta1 & Htr1 & Hcalls1 & Hfailed);
    [|done].
  apply (sweep_no_calls _ _ _ _ _ _ (dispatcherConfig d) (subscribers d) specs)
    in Hsweep as (delta2 & Htr2 & Hcalls2).
  simpl in *. exists config, (delta1 ++ delta2).
  split; [done|]. split; [by rewrite Htr2, Htr1, app_assoc|].
  split; [by apply Forall_app|].
  intros spec e Hs. apply Hfailed in Hs as [Hs|(? & ? & r & ? & ?)].
  - by rewrite lookup_empty in Hs.
  - repeat split; try done. exists r. split; [set_solver|done].
Qed.


(** ** The registry after [UpdateSubscriptions] *)

Lemma UpdateSubscriptions_postcondition d specs w d' failed w' :
  keyed (subscribers d) →
  UpdateSubscriptions d specs w = Ok (d', Some failed) w' →
  (∀ k sub, k ∈ uids specs → subscribers d !! k = Some sub →
     subscribers d' !! k = Some sub)
  ∧ (∀ k, k ∈ uids specs →
       is_Some (subscribers d' !! k)
       ∨ ∃ spec, spec ∈ specs ∧ UID spec = k ∧ is_Some (failed !! spec))
  ∧ (∀ k, is_Some (subscribers d' !! k) →
       is_Some (subscribers d !! k) ∨ k ∈ uids specs)
  ∧ (∀ k sub, k ∉ uids specs → subscribers d' !! k = Some sub →
       subscribers d !! k = Some sub ∧ is_Some (ConsumerGroup sub)
       ∧ StopChan sub ∈ closedChans w').
Proof.
  intros Hkeyed Hrun. apply UpdateSubscriptions_Ok in Hrun.
  destruct (SaramaConfig _) as [config|]; [|by destruct Hrun as (_ & ? & _)].
  destruct Hrun as (_ & d2 & act & fl & w2 & d4 & Hloop & Hsweep & -> & Hfl).
  simplify_eq.
  assert (Hkeyed2 : keyed (subscribers d2)).
  { eapply updateAll_keyed; [|exact Hloop]. done. }
  pose proof (updateAll_registry _ _ _ _ _ _ _ _ _ _ Hloop)
    as (Hmono & Hout & Hact & _).
  pose proof (updateAll_progress _ _ _ _ _ _ _ _ _ _ Hloop) as [_ Hall].
  simpl in Hmono, Hout.
  destruct (rangeOrder_keys (subscribers d2) (pick (rangeCount w2)))
    as [Hnd Hkeys].
  assert (Hkeyed3 : keyed (subscribers
            (withConfig d2 (setSubscriberSpecs (dispatcherConfig d2) []))))
    by done.
  destruct (sweep_registry _ _ _ _ _ _ Hkeyed3 Hnd Hsweep)
    as (_ & Hsame & Hsub & _).
  destruct (sweep_world _ _ _ _ _ _ Hkeyed3 Hnd Hsweep)
    as (Hcl & delta & _ & _ & Hfate).
  simpl in Hsame, Hsub, Hfate, Hcl.
  assert (Hact' : ∀ k, k ∈ act ↔ k ∈ uids specs ∧ is_Some (subscribers d2 !! k)).
  { intros k. rewrite Hact. set_solver. }
  simpl. split; [|split; [|split]].
  - intros k sub Hk Hs. apply Hmono in Hs.
    rewrite Hsame; [done|]. right. apply Hact'. eauto.
  - intros k (spec & Hspec & <-)%elem_of_uids.
    destruct (Hall _ Hspec) as [Hreg|Hf]; [|right; by eauto].
    left. rewrite Hsame; [done|]. right. apply Hact'.
    split; [apply elem_of_uids; eauto|done].
  - intros k [sub Hs]. apply Hsub in Hs.
    destruct (decide (k ∈ uids specs)) as [|Hn]; [by right|].
    left. rewrite <- (Hout _ Hn). eauto.
  - intros k sub Hn Hs. pose proof (Hsub _ _ Hs) as Hs2.
    split; [by rewrite <- (Hout _ Hn)|].
    assert (Hna : k ∉ act) by (rewrite Hact'; tauto).
    assert (Hkk : k ∈ rangeOrder (length (map_to_list (subscribers d2)).*1)
                    (pick (rangeCount w2)) (map_to_list (subscribers d2)).*1)
      by (apply Hkeys; eauto).
    specialize (Hfate _ _ Hkk Hna Hs2).
    destruct (ConsumerGroup sub) as [h|] eqn:Hh;
      [|destruct Hfate; congruence].
    split; [by eauto|]. apply Hcl. right. exists k, sub.
    rewrite Hh. eauto 10.
Qed.

(** X7.  The registry after any [UpdateSubscriptions] that ran with a
    configuration: a registration under a specified UID is kept as it was;
    every specified UID is registered or has a spec in the failure map;
    nothing is registered that was neither registered before nor specified;
    and a registration under a UID that is not specified, if still there,
    is the one from before, has a consumer group and has its stop channel
    closed. *)
Theorem UpdateSubscriptions_registry d specs w d' failed w' :
  keyed (subscribers d) →
  UpdateSubscriptions d specs w = Ok (d', Some failed) w' →
  (∀ k sub, k ∈ uids specs → subscribers d !! k = Some sub →
     subscribers d' !! k = Some sub)
  ∧ (∀ k, k ∈ uids specs →
       is_Some (subscribers d' !! k)
       ∨ ∃ spec, spec ∈ specs ∧ UID spec = k ∧ is_Some (failed !! spec))
  ∧ (∀ k, is_Some (subscribers d' !! k) →
       is_Some (subscribers d !! k) ∨ k ∈ uids specs)
  ∧ (∀ k sub, k ∉ uids specs → subscribers d' !! k = Some sub →
       subscribers d !! k = Some sub ∧ is_Some (ConsumerGroup sub)
       ∧ StopChan sub ∈ closedChans w').
Proof. exact (UpdateSubscriptions_postcondition d specs w d' failed w'). Qed.

(** X3.  A registration that [UpdateSubscriptions] was to remove and that
    is still in the registry when it returns (the close of its consumer
    group failed) makes the next teardown panic instead of trying the close
    again: a [Shutdown], or an [UpdateSubscriptions] that does not specify
    it. *)
Theorem leftover_registration_panics d specs w d' failed w' k :
  keyed (subscribers d) →
  UpdateSubscriptions d specs w = Ok (d', Some failed) w' →
  k ∉ uids specs → is_Some (subscribers d' !! k) →
  (∃ w'', Shutdown d' w' = Panic "close of closed channel" w'')
  ∧ (∀ specs', k ∉ uids specs' →
       ∃ w'', UpdateSubscriptions d' specs' w'
              = Panic "close of closed channel" w'').
Proof.
  intros Hkeyed Hrun Hk [sub Hs].
  destruct (UpdateSubscriptions_postcondition _ _ _ _ _ _ Hkeyed Hrun)
    as (_ & _ & _ & Hleft).
  destruct (Hleft _ _ Hk Hs) as (_ & Hh & Hc).
  destruct (UpdateSubscriptions_retained _ _ _ _ _ _ Hkeyed Hrun)
    as (Hkeyed' & _).
  destruct (closed_StopChan_panics _ _ _ _ Hkeyed' Hs Hh Hc) as [Hshut Hupd].
  split; [done|]. intros specs' Hk'.
  pose proof (UpdateSubscriptions_frame _ _ _ _ _ _ Hrun) as [Hcfg Hlock].
  apply (f_equal SaramaConfig) in Hcfg. simpl in Hcfg.
  apply UpdateSubscriptions_Ok in Hrun.
  destruct (SaramaConfig (dispatcherConfig d)) as [config|];
    [|by destruct Hrun as (_ & ? & _)].
  destruct Hrun as (Hl & _).
  apply Hupd; [rewrite Hcfg; eauto|congruence|done].
Qed.

(** ** A new dispatcher and the rebuild *)

Lemma UpdateSubscriptions_fresh config specs w c :
  SaramaConfig config = Some c →
  (∀ ch, ch ∈ closedChans w → ch < nextChan w) →
  (∀ tr b c g, cgErr (CreateConsumerGroup tr b c g) = None) →
  ∃ nd w',
    UpdateSubscriptions (NewDispatcher config) specs w = Ok (nd, Some ∅) w'
    ∧ clean nd w'
    ∧ (∀ k, is_Some (subscribers nd !! k) ↔ k ∈ uids specs)
    ∧ SaramaConfig (dispatcherConfig nd) = Some c
    ∧ closedChans w' = closedChans w.
Proof.
  intros Hc Hclosed Hok.
  destruct (updateAll_total c specs (withLock (NewDispatcher config) true, ∅, ∅) w)
    as ([[d2 act] fl] & w2 & Hloop).
  pose proof (updateAll_all_created _ _ _ _ _ _ _ _ _ _ Hok Hloop) as [-> Hall].
  pose proof (updateAll_registry _ _ _ _ _ _ _ _ _ _ Hloop)
    as (_ & Hout & Hact & _).
  pose proof (updateAll_frame _ _ _ _ _ _ Hloop) as (_ & _ & Hcl & _).
  assert (Hkeyed2 : keyed (subscribers d2)).
  { eapply updateAll_keyed; [|exact Hloop]. apply NewDispatcher_keyed. }
  edestruct (sweep_all_active act
               (rangeOrder (length (map_to_list (subscribers d2)).*1)
                  (pick (rangeCount w2)) (map_to_list (subscribers d2)).*1)
               (withConfig d2 (setSubscriberSpecs (dispatcherConfig d2) []))
               (mkWorld (trace w2) (closedChans w2) (nextChan w2)
                  (S (rangeCount w2)))) as (d5 & Hsweep & _).
  { simpl. intros k sub Hs. rewrite (Hkeyed2 _ _ Hs). apply Hact. right.
    split; [|by eauto].
    destruct (decide (k ∈ uids specs)) as [|Hn]; [done|].
    rewrite (Hout _ Hn) in Hs. done. }
  assert (Hrun : UpdateSubscriptions (NewDispatcher config) specs w
                 = Ok (withLock d5 false, Some ∅)
                     (mkWorld (trace w2) (closedChans w2) (nextChan w2)
                        (S (rangeCount w2)))).
  { eapply UpdateSubscriptions_run; [exact Hc|done|exact Hloop|exact Hsweep]. }
  eexists _, _. split; [exact Hrun|].
  edestruct (UpdateSubscriptions_establishes (NewDispatcher config) specs w)
    as (Hclean & Hdom & Hcfg & _); [| |exact Hrun|].
  - by apply NewDispatcher_clean.
  - intros k Hk. by apply NewDispatcher_empty in Hk.
  - split; [done|]. split; [done|]. split; [by rewrite Hcfg|done].
Qed.


(** X10.  [UpdateSubscriptions] on a new dispatcher, when the factory
    always succeeds.  With a Sarama configuration the call returns an empty
    failure map, the registry holds exactly the specified identities, every
    registration has its own open stop channel, and no channel is closed.
    Without a Sarama configuration the call returns the nil map at once and
    the dispatcher and the world are as before: nothing is registered. *)
Theorem NewDispatcher_UpdateSubscriptions config specs w :
  (∀ ch, ch ∈ closedChans w → ch < nextChan w) →
  (∀ tr b c g, cgErr (CreateConsumerGroup tr b c g) = None) →
  match SaramaConfig config with
  | Some c =>
      ∃ nd w',
        UpdateSubscriptions (NewDispatcher config) specs w = Ok (nd, Some ∅) w'
        ∧ clean nd w'
        ∧ (∀ k, is_Some (subscribers nd !! k) ↔ k ∈ uids specs)
        ∧ SaramaConfig (dispatcherConfig nd) = Some c
        ∧ closedChans w' = closedChans w
  | None =>
      UpdateSubscriptions (NewDispatcher config) specs w
      = Ok (NewDispatcher config, None) w
      ∧ subscribers (NewDispatcher config) = ∅
  end.
Proof.
  intros Hcl Hok. destruct (SaramaConfig config) as [c|] eqn:Hc.
  - exact (UpdateSubscriptions_fresh config specs w c Hc Hcl Hok).
  - split; [|done]. unfold UpdateSubscriptions. simpl. by rewrite Hc.
Qed.

(** ** The mutex *)

Lemma closeConsumerGroup_not_Blocked d sub w w' :
  closeConsumerGroup d sub w ≠ Blocked w'.
Proof.
  rewrite closeConsumerGroup_unfold.
  destruct (ConsumerGroup sub); [|done].
  case_decide; [done|]. simpl. by destruct (CloseGroup _ _).
Qed.

Lemma forRange_not_Blocked body keys :
  (∀ d sub w w', body d sub w ≠ Blocked w') →
  ∀ d w w', forRange body keys d w ≠ Blocked w'.
Proof.
  intros Hbody. induction keys as [|k keys IH]; intros d w w'; simpl.
  - done.
  - destruct (subscribers d !! k) as [sub|]; [|apply IH].
    munfold. destruct (body d sub w) eqn:Hb; try done.
    intros ?. simplify_eq. by eapply Hbody.
Qed.

(** X9.  An [UpdateSubscriptions] that returns has written to the
    registry only while it held the mutex, and leaves the mutex as it found
    it.  Called while the mutex is held, it waits when the dispatcher has a
    Sarama configuration; when it has none the call returns the nil map at
    once, before it gets to the mutex.  [Shutdown] never takes the mutex:
    it does not wait for it, and its writes to the registry are made with
    the mutex as it found it, held by another call or not. *)
Theorem mutex_discipline d w :
  (∀ specs d' failed w',
     UpdateSubscriptions d specs w = Ok (d', failed) w' →
     consumerUpdateLock d' = consumerUpdateLock d
     ∧ ∃ delta, trace w' = trace w ++ delta ∧ Forall (writeUnder true) delta)
  ∧ (∀ specs,
       consumerUpdateLock d = true →
       UpdateSubscriptions d specs w
       = match SaramaConfig (dispatcherConfig d) with
         | Some _ => Blocked w
         | None => Ok (d, None) w
         end)
  ∧ (∀ d' w',
       Shutdown d w = Ok d' w' →
       consumerUpdateLock d' = consumerUpdateLock d
       ∧ ∃ delta, trace w' = trace w ++ delta
                  ∧ Forall (writeUnder (consumerUpdateLock d)) delta)
  ∧ (∀ w', Shutdown d w ≠ Blocked w').
Proof.
  split; [|split; [|split]].
  - intros specs d' failed w' Hrun. split.
    + by apply UpdateSubscriptions_frame in Hrun as [_ ?].
    + by eapply UpdateSubscriptions_writes_locked.
  - intros specs Hl. unfold UpdateSubscriptions.
    destruct (SaramaConfig _) as [config|]; [|done].
    unfold Lock. munfold. by rewrite Hl.
  - intros d' w'. apply Shutdown_writes_unlocked.
  - intros w'. unfold Shutdown, rangeKeys. munfold.
    apply forRange_not_Blocked. intros. apply closeConsumerGroup_not_Blocked.
Qed.

(** X16.  [ConfigChanged] returns no replacement only when it has done
    nothing: an overlay that cannot be merged is answered with nil at once,
    and whenever nil is returned the dispatcher and the world are as before
    (no shutdown, nothing closed, nothing created).  Once the rebuild has
    started, the call returns the replacement or does not return. *)
Theorem ConfigChanged_without_replacement d cm w :
  (∀ e, MergeSaramaSettings None cm = inr e →
        ConfigChanged d cm w = Ok (d, None) w)
  ∧ (∀ d' w', ConfigChanged d cm w = Ok (d', None) w' → d' = d ∧ w' = w).
Proof.
  split.
  - intros e He. by rewrite ConfigChanged_unfold, He.
  - intros d' w'. rewrite ConfigChanged_unfold.
    destruct (MergeSaramaSettings None cm) as [merged|];
      [|by intros; simplify_eq].
    match goal with |- (if ?b then _ else _) = _ → _ => destruct b end;
      [by intros; simplify_eq|].
    intros Hrun. by apply rebuild_Ok in Hrun as (? & ? & ? & _ & _ & ? & _).
Qed.

(** ** The teardown protocol over runs *)

Lemma signalFirst_app prev l1 l2 :
  signalFirst prev l1 → (∀ q, signalFirst q l2) → signalFirst prev (l1 ++ l2).
Proof.
  revert prev. induction l1 as [|e l1 IH]; intros prev H1 H2; simpl in *.
  - apply H2.
  - destruct H1 as [? ?]. split; [done|]. by apply IH.
Qed.

Lemma signalFirst_loop delta :
  Forall loopEvent delta → ∀ q, signalFirst q delta.
Proof.
  induction 1 as [|e delta He _ IH]; intros q; simpl; [done|].
  split; [by destruct e|apply IH].
Qed.

(** The sweep, however it ends. *)
Lemma sweep_signalFirst active keys d w :
  ∃ delta,
    trace (resultWorld (forRange (sweepOne active) keys d w)) = trace w ++ delta
    ∧ ∀ q, signalFirst q delta.
Proof.
  revert d w. induction keys as [|k keys IH]; intros d w; simpl.
  - exists []. by rewrite app_nil_r.
  - destruct (subscribers d !! k) as [sub|]; [|apply IH].
    munfold.
    destruct (sweepOne_outcome active d sub w)
      as [(d1 & w1 & Hstep)|(Hp & _)].
    + rewrite Hstep. destruct (IH d1 w1) as (delta & Htr & Hsig).
      apply sweepOne_cases in Hstep as (_ & _ & _ & Hcases).
      assert (∃ step, trace w1 = trace w ++ step ∧ ∀ q, signalFirst q step)
        as (step & Hs & Hst).
      { destruct Hcases as [(_ & _ & _ & ->)
          |(_ & _ & [(_ & _ & _ & Ht)|(h & err & _ & _ & _ & Ht & _)])].
        - exists []. by rewrite app_nil_r.
        - eexists. split; [exact Ht|]. by intros q.
        - eexists. split; [exact Ht|]. intros q. by destruct err. }
      exists (step ++ delta). rewrite Htr, Hs, app_assoc. split; [done|].
      intros q. by apply signalFirst_app.
    + rewrite Hp. simpl. exists []. by rewrite app_nil_r.
Qed.

Lemma Shutdown_signalFirst d w :
  ∃ delta,
    trace (resultWorld (Shutdown d w)) = trace w ++ delta
    ∧ signalFirst None delta.
Proof.
  rewrite Shutdown_as_sweep. unfold rangeKeys. munfold.
  match goal with |- context [forRange _ ?k ?d0 ?w0] =>
    destruct (sweep_signalFirst ∅ k d0 w0) as (delta & Htr & Hs) end.
  exists delta. split; [exact Htr|apply Hs].
Qed.

Lemma UpdateSubscriptions_signalFirst d specs w :
  ∃ delta,
    trace (resultWorld (UpdateSubscriptions d specs w)) = trace w ++ delta
    ∧ signalFirst None delta.
Proof.
  unfold UpdateSubscriptions.
  destruct (SaramaConfig _) as [config|];
    [|exists []; munfold; simpl; by rewrite app_nil_r].
  unfold Lock, Unlock, rangeKeys. munfold.
  destruct (consumerUpdateLock d); [exists []; simpl; by rewrite app_nil_r|].
  destruct (updateAll_total config specs (withLock d true, ∅, ∅) w)
    as ([[d2 act] fl] & w2 & Hloop). rewrite Hloop. simpl.
  apply updateAll_registry in Hloop as (_ & _ & _ & _ & delta1 & Htr1 & Hev).
  match goal with |- context [forRange _ ?k ?d0 ?w0] =>
    destruct (sweep_signalFirst act k d0 w0) as (delta2 & Htr2 & Hs2);
    destruct (forRange (sweepOne act) k d0 w0) end;
    simpl in *; exists (delta1 ++ delta2); rewrite Htr2, Htr1, app_assoc;
    (split; [done|]); (apply signalFirst_app; [by apply signalFirst_loop|done]).
Qed.

(** C8.  Teardown as [Shutdown] and the removal sweep of
    [UpdateSubscriptions] do it, for a dispatcher whose registrations sit
    under the UID of their spec.  In every run of either, however it ends,
    each call of a consumer group's [Close] comes directly after the close
    of the stop channel of the same registration.  When [Shutdown] returns,
    its events are teardown events of registrations, and every registration
    was torn down: with a consumer group, its stop channel was closed, then
    [Close] was called, once, and the registration is still in the registry
    exactly when [Close] failed (its stop channel closed all the same) and
    is out of it when [Close] succeeded; without consumer group it is
    deleted.  When [UpdateSubscriptions] returns a failure map (without
    Sarama configuration it returns the nil map before any teardown), its
    events are those of the first loop and teardown events of registrations
    that were not specified, and every registration that was not specified
    was torn down in the same way. *)
Theorem teardown_protocol d w :
  keyed (subscribers d) →
  (∃ delta, trace (resultWorld (Shutdown d w)) = trace w ++ delta
            ∧ signalFirst None delta)
  ∧ (∀ specs,
       ∃ delta, trace (resultWorld (UpdateSubscriptions d specs w))
                = trace w ++ delta
                ∧ signalFirst None delta)
  ∧ (∀ d' w',
       Shutdown d w = Ok d' w' →
       ∃ delta,
         trace w' = trace w ++ delta
         ∧ (∀ e, e ∈ delta →
              ∃ sub, subscribers d !! UID (Spec sub) = Some sub
                     ∧ teardownEvent sub e)
         ∧ ∀ k sub, subscribers d !! k = Some sub →
             tornDown d' w' delta k sub)
  ∧ (∀ specs d' failed w',
       UpdateSubscriptions d specs w = Ok (d', Some failed) w' →
       ∃ delta,
         trace w' = trace w ++ delta
         ∧ (∀ e, e ∈ delta →
              loopEvent e
              ∨ ∃ sub, subscribers d !! UID (Spec sub) = Some sub
                       ∧ (UID (Spec sub) ∉ uids specs)
                       ∧ teardownEvent sub e)
         ∧ ∀ k sub, subscribers d !! k = Some sub → k ∉ uids specs →
             tornDown d' w' delta k sub).
Proof.
  intros Hkeyed.
  split; [apply Shutdown_signalFirst|].
  split; [intros specs; apply UpdateSubscriptions_signalFirst|].
  split.
  - intros d' w' Hrun.
    rewrite Shutdown_as_sweep in Hrun. unfold rangeKeys in Hrun. munfold.
    destruct (rangeOrder_keys (subscribers d) (pick (rangeCount w)))
      as [Hnd Hkeys].
    destruct (sweep_world _ _ _ _ _ _ Hkeyed Hnd Hrun)
      as (Hcl & delta & Htr & Hev & Hfate).
    destruct (sweep_close_answers _ _ _ _ _ _ Hrun) as (delta' & Htr' & Hans).
    assert (delta' = delta) as ->.
    { rewrite Htr in Htr'. by apply app_inv_head in Htr'. }
    rewrite Forall_forall in Hans. simpl in Htr.
    exists delta. split; [done|]. split.
    + intros e He. apply Hev in He as (sub & Hs & _ & _ & Hte). eauto.
    + intros k sub Hs.
      assert (Hk : k ∈ rangeOrder (length (map_to_list (subscribers d)).*1)
                     (pick (rangeCount w)) (map_to_list (subscribers d)).*1)
        by (apply Hkeys; eauto).
      specialize (Hfate k sub Hk (not_elem_of_empty k) Hs).
      unfold tornDown.
      destruct (ConsumerGroup sub) as [h|] eqn:Hh; [|done].
      destruct Hfate as (err & l1 & l2 & Hd & Huniq & Hreg).
      exists err, l1, l2. split; [done|]. split; [done|]. split; [|split].
      * assert (Hin : EvCloseConsumerGroup sub err ∈ delta)
          by (rewrite Hd; set_solver).
        apply Hans in Hin as (tr & h' & Hh' & ->).
        rewrite Hh in Hh'. simplify_eq. by exists tr.
      * apply Hcl. right. exists k, sub. rewrite Hh.
        split; [done|]. split; [apply not_elem_of_empty|]. eauto.
      * done.
  - intros specs d' failed w' Hrun. apply UpdateSubscriptions_Ok in Hrun.
    destruct (SaramaConfig _) as [config|]; [|by destruct Hrun as (_ & ? & _)].
    destruct Hrun as (_ & d2 & act & fl & w2 & d4 & Hloop & Hsweep & -> & _).
    assert (Hkeyed2 : keyed (subscribers d2)).
    { eapply updateAll_keyed; [|exact Hloop]. done. }
    pose proof (updateAll_registry _ _ _ _ _ _ _ _ _ _ Hloop)
      as (_ & Hout & Hact & _ & delta1 & Htr1 & Hev1).
    simpl in Hout, Htr1.
    assert (Hact' : ∀ k, k ∈ act → k ∈ uids specs).
    { intros k. rewrite Hact. set_solver. }
    destruct (rangeOrder_keys (subscribers d2) (pick (rangeCount w2)))
      as [Hnd Hkeys].
    assert (Hkeyed3 : keyed (subscribers
              (withConfig d2 (setSubscriberSpecs (dispatcherConfig d2) []))))
      by done.
    destruct (sweep_world _ _ _ _ _ _ Hkeyed3 Hnd Hsweep)
      as (Hcl & delta2 & Htr2 & Hev2 & Hfate).
    destruct (sweep_close_answers _ _ _ _ _ _ Hsweep)
      as (delta' & Htr' & Hans).
    assert (delta' = delta2) as ->.
    { rewrite Htr2 in Htr'. by apply app_inv_head in Htr'. }
    rewrite Forall_forall in Hans, Hev1. simpl in Htr2, Hev2, Hfate, Hcl.
    exists (delta1 ++ delta2). split; [by rewrite Htr2, Htr1, app_assoc|].
    split.
    + intros e [He|He]%elem_of_app; [left; by apply Hev1|right].
      apply Hev2 in He as (sub & Hs & _ & Hna & Hte).
      assert (Hn : UID (Spec sub) ∉ uids specs).
      { intros Hin. apply Hna, Hact. right. split; [done|by eexists]. }
      exists sub. split; [by rewrite <- (Hout _ Hn)|done].
    + intros k sub Hs Hn.
      assert (Hs2 : subscribers d2 !! k = Some sub) by by rewrite (Hout _ Hn).
      assert (Hna : k ∉ act) by (intros ?; by apply Hn, Hact').
      assert (Hk : k ∈ rangeOrder (length (map_to_list (subscribers d2)).*1)
                     (pick (rangeCount w2)) (map_to_list (subscribers d2)).*1)
        by (apply Hkeys; eauto).
      specialize (Hfate k sub Hk Hna Hs2).
      assert (Hnot : ∀ err', EvCloseConsumerGroup sub err' ∉ delta1).
      { intros err' Hin. by apply Hev1 in Hin. }
      unfold tornDown. simpl.
      destruct (ConsumerGroup sub) as [h|] eqn:Hh.
      * destruct Hfate as (err & l1 & l2 & Hd & Huniq & Hreg).
        exists err, (delta1 ++ l1), l2.
        split; [by rewrite Hd, app_assoc|].
        split; [|split; [|split]].
        -- intros err' [Hin|Hin]%elem_of_app; [by apply Hnot in Hin|].
           by apply Huniq.
        -- assert (Hin : EvCloseConsumerGroup sub err ∈ delta2)
             by (rewrite Hd; set_solver).
           apply Hans in Hin as (tr & h' & Hh' & ->).
           rewrite Hh in Hh'. simplify_eq. by exists tr.
        -- apply Hcl. right. exists k, sub. rewrite Hh. eauto 10.
        -- done.
      * destruct Hfate as [Hreg Hno]. split; [done|].
        intros err [Hin|Hin]%elem_of_app; [by apply Hnot in Hin|].
        by apply Hno in Hin.
Qed.

End Dispatcher.

(** * The verification of the controller configuration *)

Section VerifyConfiguration.

Context {Quantity : Type} `{!EqDecision Quantity}.
Variable zeroQuantity : Quantity.
Variable ToLower : string → string.

Lemma setAdminType_same (c : config.EventingKafkaConfig Quantity) :
  config.setAdminType c (config.AdminType (config.Kafka c)) = c.
Proof. by destruct c as [? ? []]. Qed.

Lemma Z_ltb_1 (z : Z) : (z <? 1)%Z = false ↔ (1 ≤ z)%Z.
Proof. rewrite Z.ltb_ge. done. Qed.

(** X11.  [VerifyConfiguration] returns no error exactly for the
    configurations whose admin type is, in lower case, one of the three
    known ones and whose mandatory settings are all present; it leaves the
    admin type in lower case. *)
Theorem VerifyConfiguration_accepts (c c' : config.EventingKafkaConfig Quantity) :
  config.VerifyConfiguration zeroQuantity ToLower (Some c) = config.Returned c' None
  ↔ config.knownAdminType (ToLower (config.AdminType (config.Kafka c)))
    ∧ config.mandatorySet zeroQuantity c
    ∧ c' = config.setAdminType c (ToLower (config.AdminType (config.Kafka c))).
Proof.
  unfold config.VerifyConfiguration, config.mandatorySet, config.resourcesSet,
    config.knownAdminType.
  simpl. split.
  - intros Hrun. case_decide as Hknown; [|done].
    repeat match type of Hrun with
    | context [ (?z <? 1)%Z ] =>
        let H := fresh "Hz" in
        destruct (z <? 1)%Z eqn:H; [done|apply Z_ltb_1 in H]
    | context [ decide (?a = ?b) ] => destruct (decide (a = b)); [done|]
    end.
    by simplify_eq.
  - intros (Hknown & (? & ? & ? & (? & ? & ? & ? & ?) & (? & ? & ? & ? & ?)) & ->).
    rewrite decide_True by done.
    repeat match goal with
    | |- context [ (?z <? 1)%Z ] =>
        let H := fresh "Hz" in
        destruct (z <? 1)%Z eqn:H; [apply Z.ltb_lt in H; lia|]
    | |- context [ decide (?a = ?b) ] => destruct (decide (a = b)); [done|]
    end.
    done.
Qed.

(** X12.  [VerifyConfiguration] writes to the configuration before it has
    checked everything.  Whatever it returns, only [Kafka.AdminType] can
    have changed; when the admin type is known it has been replaced by its
    lower case, also when an error is returned for a later setting; when it
    is unknown nothing is written and the error quotes the admin type as it
    was given. *)
Theorem VerifyConfiguration_writes (c c' : config.EventingKafkaConfig Quantity) err :
  config.VerifyConfiguration zeroQuantity ToLower (Some c) = config.Returned c' err →
  config.Dispatcher c' = config.Dispatcher c
  ∧ config.Receiver c' = config.Receiver c
  ∧ config.Topic (config.Kafka c') = config.Topic (config.Kafka c)
  ∧ (config.knownAdminType (ToLower (config.AdminType (config.Kafka c))) →
       config.AdminType (config.Kafka c') = ToLower (config.AdminType (config.Kafka c)))
  ∧ (¬ config.knownAdminType (ToLower (config.AdminType (config.Kafka c))) →
       c' = c
       ∧ err = Some ("Invalid / Unknown Kafka Admin Type: "
                     +:+ config.AdminType (config.Kafka c))).
Proof.
  unfold config.VerifyConfiguration, config.knownAdminType. simpl.
  intros Hrun. case_decide as Hknown; simplify_eq; simpl; tauto.
Qed.

(** X13.  Verifying again changes nothing: a second call on the
    configuration the first call left behind returns the same error and
    leaves the same configuration, provided lower case leaves the three
    admin types as they are. *)
Theorem VerifyConfiguration_again (c c' : config.EventingKafkaConfig Quantity) err :
  (∀ t, config.knownAdminType t → ToLower t = t) →
  config.VerifyConfiguration zeroQuantity ToLower (Some c) = config.Returned c' err →
  config.VerifyConfiguration zeroQuantity ToLower (Some c') = config.Returned c' err.
Proof.
  intros Hfix Hrun.
  unfold config.VerifyConfiguration in Hrun.
  case_decide as Hknown.
  - injection Hrun as <- <-.
    unfold config.VerifyConfiguration.
    assert (Hl : ToLower (config.AdminType (config.Kafka
                   (config.setAdminType c (ToLower (config.AdminType (config.Kafka c)))))) = ToLower (config.AdminType (config.Kafka c)))
      by (simpl; by apply Hfix).
    rewrite Hl, decide_True by done.
    assert (config.setAdminType (config.setAdminType c (ToLower (config.AdminType (config.Kafka c)))) (ToLower (config.AdminType (config.Kafka c)))
            = config.setAdminType c (ToLower (config.AdminType (config.Kafka c)))) as -> by done.
    done.
  - injection Hrun as <- <-.
    unfold config.VerifyConfiguration. by rewrite decide_False by done.
Qed.

(** X14.  The topic defaults are checked before the dispatcher and the
    receiver: when the admin type is known and a topic default is below 1,
    the error names a topic setting whatever the dispatcher and the receiver
    hold. *)
Theorem VerifyConfiguration_topic_first (c c' : config.EventingKafkaConfig Quantity) err :
  config.knownAdminType (ToLower (config.AdminType (config.Kafka c))) →
  ¬ ((1 ≤ config.DefaultNumPartitions (config.Topic (config.Kafka c)))%Z
     ∧ (1 ≤ config.DefaultReplicationFactor (config.Topic (config.Kafka c)))%Z
     ∧ (1 ≤ config.DefaultRetentionMillis (config.Topic (config.Kafka c)))%Z) →
  config.VerifyConfiguration zeroQuantity ToLower (Some c) = config.Returned c' err →
  err ∈ [Some "Kafka.Topic.DefaultNumPartitions must be > 0";
         Some "Kafka.Topic.DefaultReplicationFactor must be > 0";
         Some "Kafka.Topic.DefaultRetentionMillis must be > 0"].
Proof.
  intros Hknown Hbad. unfold config.VerifyConfiguration.
  rewrite decide_True by done. simpl.
  repeat match goal with
  | |- context [ (?z <? 1)%Z ] =>
      let H := fresh "Hz" in
      destruct (z <? 1)%Z eqn:H;
        [intros [= <- <-]; set_solver|apply Z_ltb_1 in H]
  end.
  tauto.
Qed.

End VerifyConfiguration.

Lemma string_snoc_inj (a : Ascii.ascii) (s1 s2 : string) :
  s1 +:+ String a "" = s2 +:+ String a "" → s1 = s2.
Proof.
  revert s2. induction s1 as [|b s1 IH]; intros [|b' s2] H; simpl in *.
  - done.
  - injection H as _ H. by destruct s2.
  - injection H as _ H. by destruct s1.
  - injection H as -> H. f_equal. by apply IH.
Qed.

(** X15.  The message of a [ControllerConfigurationError] determines the
    error: two errors with the same message are the same error. *)
Theorem ControllerConfigurationError_Error_inj (e1 e2 : config.ControllerConfigurationError) :
  config.Error e1 = config.Error e2 → e1 = e2.
Proof.
  unfold config.Error. intros H.
  apply (inj (String.app _)) in H.
  by apply string_snoc_inj in H.
Qed.

(** * The properties on concrete inputs *)

Ltac vm_decide := apply (bool_decide_unpack _); vm_compute; exact I.

(** Hypotheses on concrete registries are decided by evaluation. *)
Ltac decide_keyed :=
  match goal with
  | |- keyed ?m =>
      change (map_Forall (λ k sub, UID (Spec sub) = k) m); vm_decide
  end.

Ltac decide_grouped :=
  match goal with
  | |- grouped ?m =>
      change (map_Forall (λ k sub, UID (Spec sub) = k
                                   ∧ GroupId sub = "kafka." +:+ k) m);
      vm_decide
  end.

Ltac decide_distinct m :=
  let k1 := fresh in let k2 := fresh in
  let s1 := fresh in let s2 := fresh in
  let H1 := fresh in let H2 := fresh in
  intros k1 k2 s1 s2 H1 H2; revert k2 s2 H2; revert k1 s1 H1;
  change (map_Forall (λ k1 sub1, map_Forall (λ k2 sub2,
            StopChan sub1 = StopChan sub2 → k1 = k2) m) m);
  vm_decide.

Ltac decide_cleanRegistry :=
  match goal with
  | |- cleanRegistry ?m ?w =>
      split; [decide_keyed|];
      split; [change (set_Forall (λ ch, ch < nextChan w) (closedChans w));
              vm_decide|];
      split; [change (map_Forall (λ (_ : string) sub,
                        StopChan sub < nextChan w
                        ∧ StopChan sub ∉ closedChans w) m); vm_decide|];
      decide_distinct m
  end.

(** C8 on the dispatcher with A and B registered, when the close of the
    consumer group of A works and that of B fails: [Shutdown] returns, A is
    out of the registry and B is still in it, both torn down by the
    protocol. *)
Lemma teardown_protocol_witness :
  keyed (subscribers registeredAB)
  ∧ ∃ d' w' delta,
      Shutdown closeFailsFor3 pickFirst registeredAB worldAB = Ok d' w'
      ∧ trace w' = trace worldAB ++ delta
      ∧ tornDown closeFailsFor3 d' w' delta "A" subA
      ∧ tornDown closeFailsFor3 d' w' delta "B" subB
      ∧ subscribers d' !! "A" = None
      ∧ subscribers d' !! "B" = Some subB.
Proof.
  assert (Hkeyed : keyed (subscribers registeredAB)) by decide_keyed.
  split; [exact Hkeyed|].
  pose (r := Shutdown closeFailsFor3 pickFirst registeredAB worldAB).
  assert (Hrun : r = Ok (resultValue r registeredAB) (resultWorld r))
    by (apply returns_Ok; vm_compute; reflexivity).
  destruct (teardown_protocol createOk closeFailsFor3 pickFirst registeredAB
              worldAB Hkeyed) as (_ & _ & Hshut & _).
  destruct (Hshut _ _ Hrun) as (delta & Htr & _ & Htorn).
  exists (resultValue r registeredAB), (resultWorld r), delta.
  split; [exact Hrun|]. split; [exact Htr|].
  split; [apply Htorn; reflexivity|]. split; [apply Htorn; reflexivity|].
  split; vm_compute; reflexivity.
Defined.

(** X1 on the dispatcher with A and B registered: [Shutdown] empties the
    registry and closes both stop channels. *)
Lemma Shutdown_closes_all_witness :
  cleanRegistry (subscribers registeredAB) worldAB
  ∧ (∀ tr h, closeOk tr h = None)
  ∧ ∃ d' w',
      Shutdown closeOk pickFirst registeredAB worldAB = Ok d' w'
      ∧ subscribers d' = ∅
      ∧ StopChan subA ∈ closedChans w'
      ∧ StopChan subB ∈ closedChans w'.
Proof.
  assert (Hclean : cleanRegistry (subscribers registeredAB) worldAB)
    by decide_cleanRegistry.
  assert (Hclose : ∀ tr h, closeOk tr h = None) by reflexivity.
  split; [exact Hclean|]. split; [exact Hclose|].
  destruct (Shutdown_closes_all createOk closeOk pickFirst registeredAB
              worldAB Hclean Hclose)
    as (d' & w' & delta & Hrun & Hempty & _ & _ & Hstopped & _).
  exists d', w'. split; [exact Hrun|]. split; [exact Hempty|]. split.
  - apply (Hstopped "A" subA); [reflexivity|]. by eexists.
  - apply (Hstopped "B" subB); [reflexivity|]. by eexists.
Defined.

(** X2 on the dispatcher that kept B after a failed close: the next
    [Shutdown] and the next [UpdateSubscriptions] without B panic. *)
Lemma teardown_again_panics_witness :
  keyed (subscribers leftoverB)
  ∧ subscribers leftoverB !! "B" = Some subB
  ∧ is_Some (ConsumerGroup subB)
  ∧ StopChan subB ∈ closedChans worldLeftoverB
  ∧ (∃ w', Shutdown closeOk pickFirst leftoverB worldLeftoverB
           = Panic "close of closed channel" w')
  ∧ (∃ w', UpdateSubscriptions createOk closeOk pickFirst leftoverB [specA]
             worldLeftoverB
           = Panic "close of closed channel" w').
Proof.
  assert (Hkeyed : keyed (subscribers leftoverB)) by decide_keyed.
  assert (Hs : subscribers leftoverB !! "B" = Some subB) by reflexivity.
  assert (Hh : is_Some (ConsumerGroup subB)) by (by eexists).
  assert (Hc : StopChan subB ∈ closedChans worldLeftoverB) by vm_decide.
  split; [exact Hkeyed|]. split; [exact Hs|]. split; [exact Hh|].
  split; [exact Hc|].
  destruct (teardown_again_panics createOk closeOk pickFirst leftoverB
              worldLeftoverB "B" subB Hkeyed Hs Hh Hc) as [Hshut Hupd].
  split; [exact Hshut|].
  apply Hupd; [by eexists|reflexivity|vm_decide].
Defined.

(** X3 on the dispatcher with A and B registered, when B is to be removed
    and the close of its consumer group fails. *)
Lemma leftover_registration_panics_witness :
  keyed (subscribers registeredAB)
  ∧ UpdateSubscriptions createOk closeFails pickFirst registeredAB [specA]
      worldAB
    = Ok (leftoverB, Some ∅) worldLeftoverB
  ∧ ("B" ∉ uids [specA])
  ∧ is_Some (subscribers leftoverB !! "B")
  ∧ (∃ w'', Shutdown closeFails pickFirst leftoverB worldLeftoverB
            = Panic "close of closed channel" w'')
  ∧ (∃ w'', UpdateSubscriptions createOk closeFails pickFirst leftoverB []
              worldLeftoverB
            = Panic "close of closed channel" w'').
Proof.
  assert (Hkeyed : keyed (subscribers registeredAB)) by decide_keyed.
  assert (Hrun : UpdateSubscriptions createOk closeFails pickFirst
                   registeredAB [specA] worldAB
                 = Ok (leftoverB, Some ∅) worldLeftoverB)
    by (vm_compute; reflexivity).
  assert (Hk : "B" ∉ uids [specA]) by vm_decide.
  assert (Hs : is_Some (subscribers leftoverB !! "B")) by (by eexists).
  split; [exact Hkeyed|]. split; [exact Hrun|]. split; [exact Hk|].
  split; [exact Hs|].
  destruct (leftover_registration_panics createOk closeFails pickFirst
              registeredAB [specA] worldAB leftoverB ∅ worldLeftoverB "B"
              Hkeyed Hrun Hk Hs) as [Hshut Hupd].
  split; [exact Hshut|]. apply Hupd. vm_decide.
Defined.

(** X4 on the same run: the registry that is left is keyed and grouped as
    the one before. *)
Lemma grouped_invariant_witness :
  grouped (subscribers registeredAB)
  ∧ UpdateSubscriptions createOk closeFails pickFirst registeredAB [specA]
      worldAB
    = Ok (leftoverB, Some ∅) worldLeftoverB
  ∧ grouped (subscribers leftoverB).
Proof.
  assert (Hg : grouped (subscribers registeredAB)) by decide_grouped.
  assert (Hrun : UpdateSubscriptions createOk closeFails pickFirst
                   registeredAB [specA] worldAB
                 = Ok (leftoverB, Some ∅) worldLeftoverB)
    by (vm_compute; reflexivity).
  split; [exact Hg|]. split; [exact Hrun|].
  destruct (grouped_invariant createOk closeFails pickFirst
              mergeConsumerChange registeredAB worldAB Hg) as (Hupd & _).
  exact (Hupd _ _ _ _ Hrun).
Defined.

(** X5 on the same run. *)
Lemma ownChans_invariant_witness :
  keyed (subscribers registeredAB)
  ∧ ownChans (subscribers registeredAB) worldAB
  ∧ UpdateSubscriptions createOk closeFails pickFirst registeredAB [specA]
      worldAB
    = Ok (leftoverB, Some ∅) worldLeftoverB
  ∧ ownChans (subscribers leftoverB) worldLeftoverB.
Proof.
  assert (Hkeyed : keyed (subscribers registeredAB)) by decide_keyed.
  assert (Hown : ownChans (subscribers registeredAB) worldAB).
  { split.
    - change (map_Forall (λ (_ : string) sub, StopChan sub < nextChan worldAB)
                (subscribers registeredAB)). vm_decide.
    - decide_distinct (subscribers registeredAB). }
  assert (Hrun : UpdateSubscriptions createOk closeFails pickFirst
                   registeredAB [specA] worldAB
                 = Ok (leftoverB, Some ∅) worldLeftoverB)
    by (vm_compute; reflexivity).
  split; [exact Hkeyed|]. split; [exact Hown|]. split; [exact Hrun|].
  destruct (ownChans_invariant createOk closeFails pickFirst registeredAB
              worldAB Hkeyed Hown) as (Hupd & _).
  exact (Hupd _ _ _ _ Hrun).
Defined.

(** X7 on the same run: A is kept as it was, and B, which is left over,
    has its stop channel closed. *)
Lemma UpdateSubscriptions_registry_witness :
  keyed (subscribers registeredAB)
  ∧ UpdateSubscriptions createOk closeFails pickFirst registeredAB [specA]
      worldAB
    = Ok (leftoverB, Some ∅) worldLeftoverB
  ∧ subscribers leftoverB !! "A" = Some subA
  ∧ StopChan subB ∈ closedChans worldLeftoverB.
Proof.
  assert (Hkeyed : keyed (subscribers registeredAB)) by decide_keyed.
  assert (Hrun : UpdateSubscriptions createOk closeFails pickFirst
                   registeredAB [specA] worldAB
                 = Ok (leftoverB, Some ∅) worldLeftoverB)
    by (vm_compute; reflexivity).
  split; [exact Hkeyed|]. split; [exact Hrun|].
  destruct (UpdateSubscriptions_registry createOk closeFails pickFirst
              registeredAB [specA] worldAB leftoverB ∅ worldLeftoverB
              Hkeyed Hrun) as (Hkept & _ & _ & Hleft).
  split.
  - apply Hkept; [vm_decide|reflexivity].
  - apply (Hleft "B" subB); [vm_decide|reflexivity].
Defined.

(** X6 on a new dispatcher and the subscribers A and B, when the factory
    refuses B: the error of B in the failure map is the answer of a call
    for the group of B. *)
Lemma UpdateSubscriptions_factory_calls_witness :
  let r := UpdateSubscriptions createFailB closeOk pickFirst
             (NewDispatcher exampleConfig) [specA; specB] emptyWorld in
  let d' := (resultValue r (NewDispatcher exampleConfig, None)).1 in
  let failed := default ∅ (resultValue r (NewDispatcher exampleConfig, None)).2 in
  let w' := resultWorld r in
  r = Ok (d', Some failed) w'
  ∧ failed !! specB = Some "E"
  ∧ ∃ delta res,
      trace w' = trace emptyWorld ++ delta
      ∧ EvCreateConsumerGroup ["broker:9092"] exampleSarama "kafka.B" res
        ∈ delta
      ∧ cgErr res = Some "E".
Proof.
  intros r d' failed w'.
  assert (Hrun : r = Ok (d', Some failed) w').
  { subst d' failed w'.
    assert (Hf : (resultValue r (NewDispatcher exampleConfig, None)).2
                 = Some (default ∅
                     (resultValue r (NewDispatcher exampleConfig, None)).2)).
    { assert (Hsome : is_Some
                (resultValue r (NewDispatcher exampleConfig, None)).2)
        by vm_decide.
      destruct Hsome as [m Hm]. by rewrite Hm. }
    rewrite <- Hf, <- surjective_pairing.
    apply returns_Ok. vm_compute. reflexivity. }
  assert (Hfail : failed !! specB = Some "E") by (vm_compute; reflexivity).
  split; [exact Hrun|]. split; [exact Hfail|].
  destruct (UpdateSubscriptions_factory_calls createFailB closeOk pickFirst
              (NewDispatcher exampleConfig) [specA; specB] emptyWorld
              d' failed w' Hrun)
    as (config & delta & Hc & Htr & _ & Hcalls).
  destruct (Hcalls specB "E" Hfail) as (_ & _ & res & Hin & Herr).
  injection Hc as <-.
  exists delta, res. split; [exact Htr|]. split; [exact Hin|exact Herr].
Defined.

(** X10 on a new dispatcher with a configuration and the subscribers A
    and B. *)
Lemma NewDispatcher_UpdateSubscriptions_witness :
  (∀ ch, ch ∈ closedChans emptyWorld → ch < nextChan emptyWorld)
  ∧ (∀ tr b c g, cgErr (createOk tr b c g) = None)
  ∧ ∃ nd w',
      UpdateSubscriptions createOk closeOk pickFirst
        (NewDispatcher exampleConfig) [specA; specB] emptyWorld
      = Ok (nd, Some ∅) w'
      ∧ clean nd w'
      ∧ (∀ k, is_Some (subscribers nd !! k) ↔ k ∈ uids [specA; specB])
      ∧ SaramaConfig (dispatcherConfig nd) = Some exampleSarama
      ∧ closedChans w' = closedChans emptyWorld.
Proof.
  assert (Hcl : ∀ ch, ch ∈ closedChans emptyWorld → ch < nextChan emptyWorld).
  { change (set_Forall (λ ch, ch < nextChan emptyWorld)
              (closedChans emptyWorld)). vm_decide. }
  assert (Hok : ∀ tr b c g, cgErr (createOk tr b c g) = None) by reflexivity.
  split; [exact Hcl|]. split; [exact Hok|].
  exact (NewDispatcher_UpdateSubscriptions createOk closeOk pickFirst
           exampleConfig [specA; specB] emptyWorld Hcl Hok).
Defined.


(** X12 on a configuration with the admin type AZURE and no partitions:
    the call returns the error of the partitions and has put the admin type
    in lower case. *)
Lemma VerifyConfiguration_writes_witness :
  config.VerifyConfiguration None asciiToLower (Some exampleNoPartitions)
  = config.Returned (config.setAdminType exampleNoPartitions "azure")
      (Some "Kafka.Topic.DefaultNumPartitions must be > 0")
  ∧ config.AdminType
      (config.Kafka (config.setAdminType exampleNoPartitions "azure"))
    = asciiToLower (config.AdminType (config.Kafka exampleNoPartitions)).
Proof.
  assert (Hrun : config.VerifyConfiguration None asciiToLower
                   (Some exampleNoPartitions)
                 = config.Returned
                     (config.setAdminType exampleNoPartitions "azure")
                     (Some "Kafka.Topic.DefaultNumPartitions must be > 0"))
    by (vm_compute; reflexivity).
  split; [exact Hrun|].
  destruct (VerifyConfiguration_writes None asciiToLower _ _ _ Hrun)
    as (_ & _ & _ & Hknown & _).
  apply Hknown. right. left. vm_compute. reflexivity.
Defined.

(** X13 on an accepted configuration whose admin type is written Kafka. *)
Lemma VerifyConfiguration_again_witness :
  (∀ t, config.knownAdminType t → asciiToLower t = t)
  ∧ config.VerifyConfiguration None asciiToLower
      (Some exampleEventingKafkaConfig)
    = config.Returned
        (config.setAdminType exampleEventingKafkaConfig "kafka") None
  ∧ config.VerifyConfiguration None asciiToLower
      (Some (config.setAdminType exampleEventingKafkaConfig "kafka"))
    = config.Returned
        (config.setAdminType exampleEventingKafkaConfig "kafka") None.
Proof.
  assert (Hfix : ∀ t, config.knownAdminType t → asciiToLower t = t)
    by (intros t [-> | [-> | ->] ]; reflexivity).
  assert (Hrun : config.VerifyConfiguration None asciiToLower
                   (Some exampleEventingKafkaConfig)
                 = config.Returned
                     (config.setAdminType exampleEventingKafkaConfig "kafka")
                     None)
    by (vm_compute; reflexivity).
  split; [exact Hfix|]. split; [exact Hrun|].
  exact (VerifyConfiguration_again None asciiToLower _ _ _ Hfix Hrun).
Defined.

(** X14 on the configuration without partitions. *)
Lemma VerifyConfiguration_topic_first_witness :
  config.knownAdminType
    (asciiToLower (config.AdminType (config.Kafka exampleNoPartitions)))
  ∧ config.VerifyConfiguration None asciiToLower (Some exampleNoPartitions)
    = config.Returned (config.setAdminType exampleNoPartitions "azure")
        (Some "Kafka.Topic.DefaultNumPartitions must be > 0")
  ∧ Some "Kafka.Topic.DefaultNumPartitions must be > 0"
    ∈ [Some "Kafka.Topic.DefaultNumPartitions must be > 0";
       Some "Kafka.Topic.DefaultReplicationFactor must be > 0";
       Some "Kafka.Topic.DefaultRetentionMillis must be > 0"].
Proof.
  assert (Hknown : config.knownAdminType
            (asciiToLower (config.AdminType (config.Kafka exampleNoPartitions))))
    by (right; left; vm_compute; reflexivity).
  assert (Hrun : config.VerifyConfiguration None asciiToLower
                   (Some exampleNoPartitions)
                 = config.Returned
                     (config.setAdminType exampleNoPartitions "azure")
                     (Some "Kafka.Topic.DefaultNumPartitions must be > 0"))
    by (vm_compute; reflexivity).
  split; [exact Hknown|]. split; [exact Hrun|].
  eapply (VerifyConfiguration_topic_first None asciiToLower
            exampleNoPartitions); [exact Hknown| |exact Hrun].
  intros [H _]. simpl in H. lia.
Defined.

(** X15 on the error of a missing replica count. *)
Lemma ControllerConfigurationError_Error_inj_witness :
  config.Error "Dispatcher.Replicas must be > 0"
  = "controller: invalid configuration (Dispatcher.Replicas must be > 0)"
  ∧ "Dispatcher.Replicas must be > 0" = "Dispatcher.Replicas must be > 0".
Proof.
  split; [reflexivity|].
  apply ControllerConfigurationError_Error_inj. reflexivity.
Defined.
